(** * LGM loss and likelihood utilities (code/model/lgm.py)

    A shallow embedding of [LGMLoss], [LGMLoss_v0] and [LGMUtils].

    Tensors are nested lists; a tensor of shape (n, c, d) is a list of n
    lists of c lists of d scalars.  Scalars are real numbers: the float32
    arithmetic of the tensor library is idealised, so rounding, overflow and
    NaN are outside this development.  The operations of the tensor library
    that the program calls (broadcasting arithmetic, [scatter_],
    [index_select], [squeeze], [sum], [max]) are modelled in [Module Torch]
    with the failures the library raises from the shapes alone, before any
    kernel runs: a shape error when two sizes cannot be broadcast or an
    index tensor is too large, an index error when a 0-dimensional tensor
    is indexed with other than one index.  [forward] puts [y_onehot] on the
    CUDA device, so its labels are device indices; what an out-of-range
    index does there is not defined by the library, and the model marks
    such a call [Undefined] and says nothing more about it.  The indexing
    [centers[claimed_class]] of [get_likelihood] counts negative indices
    from the end and fails out of bounds.  The Python division
    [1.0 / batch_size] raises on an empty batch. *)

From Stdlib Require Import Reals Lra ZArith Lia.
From stdpp Require Import base list.

Open Scope R_scope.

(** ** Results of fallible calls *)

Inductive error : Set :=
| ShapeMismatch      (* sizes that cannot be broadcast together *)
| IndexOutOfRange    (* indexing [t[index]] out of bounds *)
| IndexToScalar      (* index_select of a 0-dimensional tensor with other
                        than one index *)
| Undefined          (* an out-of-range index on the CUDA device: the
                        library defines no behaviour *)
| ZeroDivision       (* Python float division by zero *)
| InvalidLabel       (* named by the design's error taxonomy; no call of the
                        program raises it *)
| EmptyReduction.    (* max over a dimension of size 0 *)

Inductive result (A : Type) : Type :=
| Ok (a : A)
| Err (e : error).
Arguments Ok {A} a.
Arguments Err {A} e.

#[export] Instance result_ret : MRet result := λ A a, Ok a.
#[export] Instance result_bind : MBind result := λ A B f r,
  match r with Ok a => f a | Err e => Err e end.
#[export] Instance result_fmap : FMap result := λ A B f r,
  match r with Ok a => Ok (f a) | Err e => Err e end.

Abbreviation vec := (list R).
Abbreviation mat := (list (list R)).
Abbreviation ten3 := (list (list (list R))).

(** ** The tensor operations used by the program *)
Module Torch.

(** [torch.sum] over a one-dimensional tensor. *)
Definition sum (v : vec) : R := foldr Rplus 0 v.

(** Pointwise application of a scalar function at rank 1, 2 and 3. *)
Definition map1 (f : R → R) (t : vec) : vec := f <$> t.
Definition map2 (f : R → R) (t : mat) : mat := map1 f <$> t.
Definition map3 (f : R → R) (t : ten3) : ten3 := map2 f <$> t.

(** [torch.sum(t, dim=-1)] at rank 2 and 3. *)
Definition sum_last2 (t : mat) : vec := sum <$> t.
Definition sum_last3 (t : ten3) : mat := sum_last2 <$> t.

(** Pairwise application over two lists of the same length. *)
Definition zipM {A B C} (f : A → B → result C) (x : list A) (y : list B)
  : result (list C) :=
  mapM (λ p, f p.1 p.2) (zip x y).

(** One dimension of broadcasting: a size 1 is stretched to the other
    size, equal sizes are paired, anything else is a shape error. *)
Definition bcast {A B C} (f : A → B → result C) (x : list A) (y : list B)
  : result (list C) :=
  match x, y with
  | [a], _ => mapM (f a) y
  | _, [b] => mapM (λ a, f a b) x
  | _, _ => if decide (length x = length y) then zipM f x y
            else Err ShapeMismatch
  end.

(** Elementwise binary operations on tensors of rank 1, 2 and 3. *)
Definition ew1 (op : R → R → R) : vec → vec → result vec :=
  bcast (λ a b, Ok (op a b)).
Definition ew2 (op : R → R → R) : mat → mat → result mat :=
  bcast (ew1 op).
Definition ew3 (op : R → R → R) : ten3 → ten3 → result ten3 :=
  bcast (ew2 op).

(** [torch.unsqueeze(t, dim=0)], [torch.unsqueeze(t, dim=1)] on a matrix
    and [torch.unsqueeze(t, dim=-1)] on a vector. *)
Definition unsqueeze0 {A} (t : A) : list A := [t].
Definition unsqueeze1 {A} (t : list A) : list (list A) := (λ r, [r]) <$> t.
Definition unsqueeze_last {A} (t : list A) : list (list A) :=
  (λ x, [x]) <$> t.

(** [t.repeat(n, 1, ...)]: n copies of [t] along dimension 0. *)
Definition repeat0 {A} (n : nat) (t : list A) : list A :=
  concat (replicate n t).

(** A tensor of rank 0 or 1. *)
Inductive squeezed : Type :=
| Scalar (x : R)
| Vector (v : vec).

(** [torch.squeeze] of a tensor of shape (1, c): every dimension of size 1
    goes, so for c = 1 what is left has no dimension at all. *)
Definition squeeze (t : mat) : squeezed :=
  match t with
  | [[x]] => Scalar x
  | _ => Vector (concat t)
  end.

(** [t.cuda()]: the same values, on the device. *)
Definition cuda {A} (t : A) : A := t.

(** [torch.FloatTensor(n, c).zero_()]. *)
Definition zeros (n c : nat) : mat := replicate n (replicate c 0).

(** [row.scatter_(0, idx, v)] on the device: an index in the row is
    written, any other index is undefined. *)
Definition scatter_row (row : vec) (idx : list Z) (v : R) : result vec :=
  foldl (λ acc j, r ← acc;
                  if decide (0 ≤ j < Z.of_nat (length r))%Z
                  then Ok (<[Z.to_nat j := v]> r)
                  else Err Undefined)
        (Ok row) idx.

(** [self.scatter_(1, index, v)] for a matrix [self] and an index tensor
    with at most as many rows as [self]; the rows of [self] beyond those
    of [index] are left as they are. *)
Definition scatter_ (self : mat) (index : list (list Z)) (v : R)
  : result mat :=
  if decide (length index ≤ length self)%nat then
    rows ← zipM (λ row idx, scatter_row row idx v)
                (take (length index) self) index;
    Ok (rows ++ drop (length index) self)
  else Err ShapeMismatch.

(** [torch.index_select(t, dim=0, index)] with the labels as index: they
    are on the device, where an index outside [t] is undefined. *)
Definition index_select {A} (t : list A) (index : list Z)
  : result (list A) :=
  mapM (λ j, if decide (0 ≤ j)%Z
             then match t !! Z.to_nat j with
                  | Some x => Ok x
                  | None => Err Undefined
                  end
             else Err Undefined) index.

(** [torch.index_select(t, dim=0, index)] of what [squeeze] returned: a
    0-dimensional tensor takes exactly one index, and that index is 0. *)
Definition index_select_squeezed (t : squeezed) (index : list Z)
  : result vec :=
  match t with
  | Vector v => index_select v index
  | Scalar x =>
      match index with
      | [j] => if decide (j = 0)%Z then Ok [x] else Err Undefined
      | _ => Err IndexToScalar
      end
  end.

(** Advanced indexing [t[index]]: negative indices count from the end. *)
Definition getitem {A} (t : list A) (index : list Z) : result (list A) :=
  mapM (λ j, let j' := if decide (j < 0)%Z
                       then (j + Z.of_nat (length t))%Z else j in
             if decide (0 ≤ j')%Z
             then match t !! Z.to_nat j' with
                  | Some x => Ok x
                  | None => Err IndexOutOfRange
                  end
             else Err IndexOutOfRange) index.

(** Index of the first maximal entry, scanning from position [i]. *)
Fixpoint max_from (best : R) (bi i : nat) (v : vec) : nat :=
  match v with
  | [] => bi
  | x :: v' => if Rlt_dec best x then max_from x i (S i) v'
               else max_from best bi (S i) v'
  end.

(** The index part of [torch.max(t, 1)] for one row. *)
Definition argmax (v : vec) : result nat :=
  match v with
  | [] => Err EmptyReduction
  | x :: v' => Ok (max_from x 0%nat 1%nat v')
  end.

End Torch.

(** ** LGMLoss: per-class diagonal covariance *)
Module LGMLoss.
Import Torch.

Record t := mk {
  feat_dim : nat;
  num_classes : nat;
  alpha : R;
  centers : mat;      (* num_classes * feat_dim *)
  log_covs : mat      (* num_classes * feat_dim *)
}.

(** [__init__]: the centers are drawn at random, the log-variances start
    at zero. *)
Definition init (num_classes feat_dim : nat) (alpha : R) (randn : mat) : t :=
  mk feat_dim num_classes alpha randn (replicate num_classes (replicate feat_dim 0)).

(** Lines 25-33 of [forward]: the distance tensor, eq. (18). *)
Definition dist (self : t) (feat : mat) : result mat :=
  let batch_size := length feat in
  let log_covs := unsqueeze0 (log_covs self) in
  let covs := map3 exp log_covs in
  let tcovs := repeat0 batch_size covs in
  diff ← ew3 Rminus (unsqueeze1 feat) (unsqueeze0 (centers self));
  wdiff ← ew3 Rdiv diff tcovs;
  diff ← ew3 Rmult diff wdiff;
  Ok (sum_last3 diff).

(** Lines 35-40 of [forward]: the distance weighted by the margin. *)
Definition margin_dist (self : t) (batch_size : nat) (dist : mat)
    (label : list Z) : result mat :=
  let y_onehot := zeros batch_size (num_classes self) in
  let y_onehot := cuda y_onehot in
  y_onehot ← scatter_ y_onehot (unsqueeze_last label) (alpha self);
  let y_onehot := map2 (λ x, x + 1.0) y_onehot in
  ew2 Rmult dist y_onehot.

Definition forward (self : t) (feat : mat) (label : list Z)
  : result (mat * mat * R) :=
  let batch_size := length feat in
  let log_covs := unsqueeze0 (log_covs self) in
  dist ← dist self feat;
  margin_dist ← margin_dist self batch_size dist label;
  let slog_covs := sum_last3 log_covs in
  let tslog_covs := repeat0 batch_size slog_covs in
  margin_logits ← map2 (Rmult (-0.5)) <$> ew2 Rplus tslog_covs margin_dist;
  logits ← map2 (Rmult (-0.5)) <$> ew2 Rplus tslog_covs dist;
  sel ← index_select (centers self) label;
  cdiff ← ew2 Rminus feat sel;
  let cdist := sum (sum_last2 (map2 (λ x, x ^ 2) cdiff)) / 2.0 in
  let slog_covs := squeeze slog_covs in
  ssel ← index_select_squeezed slog_covs label;
  let reg := 0.5 * sum ssel in
  if decide (batch_size = 0%nat) then Err ZeroDivision
  else
    let likelihood := (1.0 / INR batch_size) * (cdist + reg) in
    Ok (logits, margin_logits, likelihood).

End LGMLoss.

(** ** LGMLoss_v0: covariance fixed to the identity *)
Module LGMLoss_v0.
Import Torch.

Record t := mk {
  feat_dim : nat;
  num_classes : nat;
  alpha : R;
  centers : mat       (* num_classes * feat_dim *)
}.

(** Lines 75-77 of [forward]: the distance tensor, eq. (18). *)
Definition dist (self : t) (feat : mat) : result mat :=
  diff ← ew3 Rminus (unsqueeze1 feat) (unsqueeze0 (centers self));
  diff ← ew3 Rmult diff diff;
  Ok (sum_last3 diff).

(** Lines 80-87 of [forward]: the distance weighted by 1 + I(k = z_i)*alpha. *)
Definition margin_dist (self : t) (batch_size : nat) (dist : mat)
    (label : list Z) : result mat :=
  let y_onehot := zeros batch_size (num_classes self) in
  let y_onehot := cuda y_onehot in
  y_onehot ← scatter_ y_onehot (unsqueeze_last label) (alpha self);
  let y_onehot := map2 (λ x, x + 1.0) y_onehot in
  ew2 Rmult dist y_onehot.

Definition forward (self : t) (feat : mat) (label : list Z)
  : result (mat * mat * R) :=
  let batch_size := length feat in
  dist ← dist self feat;
  margin_dist ← margin_dist self batch_size dist label;
  let margin_logits := map2 (Rmult (-0.5)) margin_dist in
  let logits := map2 (Rmult (-0.5)) dist in
  sel ← index_select (centers self) label;
  cdiff ← ew2 Rminus feat sel;
  if decide (batch_size = 0%nat) then Err ZeroDivision
  else
    let likelihood :=
      (1.0 / INR batch_size) * sum (sum_last2 (map2 (λ x, x ^ 2) cdiff)) / 2.0 in
    Ok (logits, margin_logits, likelihood).

End LGMLoss_v0.

(** ** LGMUtils *)

(** [model.lgm] is an instance of either class; [LGMUtils] calls its
    [forward] and reads its [centers]. *)
Inductive lgm_module : Type :=
| Full (self : LGMLoss.t)
| Identity (self : LGMLoss_v0.t).

Definition lgm_forward (l : lgm_module) : mat → list Z → result (mat * mat * R) :=
  match l with
  | Full self => LGMLoss.forward self
  | Identity self => LGMLoss_v0.forward self
  end.

Definition lgm_centers (l : lgm_module) : mat :=
  match l with
  | Full self => LGMLoss.centers self
  | Identity self => LGMLoss_v0.centers self
  end.

Module LGMUtils.
Import Torch.

(** A trained network: [net] is the feature part of [model(X)], [lgm]
    its loss module. *)
Record model (X : Type) := mk {
  net : X → mat;
  lgm : lgm_module
}.
Arguments mk {X} net lgm.
Arguments net {X} m x.
Arguments lgm {X} m.

Definition is_anomalous {X} (m : model X)
    (claimed_class : list Z) (x : X) : result (list bool) :=
  let feats := net m x in
  '(logits, _, _) ← lgm_forward (lgm m) feats claimed_class;
  predicted ← mapM argmax logits;
  bcast (λ p c, Ok (negb (Z.of_nat p =? c)%Z)) predicted claimed_class.

(** The 2-norm of a row, [row.norm(p=2)]. *)
Definition norm2 (row : vec) : R := sqrt (sum (map1 (λ x, Rabs x ^ 2) row)).

Definition get_likelihood {X} (m : model X)
    (claimed_class : list Z) (x : X) : result vec :=
  let feats := net m x in
  fmean ← getitem (lgm_centers (lgm m)) claimed_class;
  d ← ew2 Rminus feats fmean;
  Ok (fmap (M:=list) (λ row, exp (-0.5 * norm2 row ^ 2)) d).

End LGMUtils.

(** * Vocabulary of the statements

    Shapes, entries, finite sums, the two loss modules seen as one, and the
    closed forms that the tensor pipelines take on well-shaped inputs. *)

#[export] Instance R_inhabited : Inhabited R := populate 0.

Section vocabulary.
Import Torch.

(** A matrix of [n] rows of [d] entries each. *)
Definition shape (t : mat) (n d : nat) : Prop :=
  length t = n ∧ Forall (λ r, length r = d) t.

(** Labels that index a class. *)
Definition valid_labels (num_classes : nat) (label : list Z) : Prop :=
  Forall (λ l, (0 ≤ l < Z.of_nat num_classes)%Z) label.

(** [unsqueeze(feat, 1) - unsqueeze(centers, 0)], the tensor of all
    differences between a sample and a center. *)
Definition diffs (feat centers : mat) : ten3 :=
  (λ f, (λ c, zip_with Rminus f c) <$> centers) <$> feat.

(** Shapes of rank 3, as nested [Forall]s. *)
Definition shape3 (t : ten3) (n c d : nat) : Prop :=
  length t = n ∧ Forall (λ m, shape m c d) t.

(** Entry [t[i, k]] of a matrix, when it exists. *)
Definition entry (t : mat) (i k : nat) : option R := r ← t !! i; r !! k.

(** [sum_{d < n} f d]. *)
Fixpoint big_sum (n : nat) (f : nat → R) : R :=
  match n with
  | O => 0
  | S n' => f O + big_sum n' (λ d, f (S d))
  end.

(** The invariant of the parameters: both have shape
    (num_classes, feat_dim). *)
Definition LGMLoss_wf (self : LGMLoss.t) : Prop :=
  shape (LGMLoss.centers self) (LGMLoss.num_classes self) (LGMLoss.feat_dim self) ∧
  shape (LGMLoss.log_covs self) (LGMLoss.num_classes self) (LGMLoss.feat_dim self).

(** The value of [LGMLoss.dist] on well-shaped features. *)
Definition LGMLoss_dist_cf (self : LGMLoss.t) (feat : mat) : mat :=
  let D1 := diffs feat (LGMLoss.centers self) in
  let tcovs := replicate (length feat) (map2 exp (LGMLoss.log_covs self)) in
  sum_last3 (zip_with (zip_with (zip_with Rmult)) D1
               (zip_with (zip_with (zip_with Rdiv)) D1 tcovs)).

(** The one-hot weights after [scatter_]: [v] at the label, 0 elsewhere. *)
Definition onehot (n c : nat) (label : list Z) (v : R) : mat :=
  zip_with (λ row l, <[Z.to_nat l := v]> row) (zeros n c) label.

(** The distance weighted by the margin, lines 35-40 and 80-87. *)
Definition margin_cf (n c : nat) (dist : mat) (label : list Z) (a : R) : mat :=
  zip_with (zip_with Rmult) dist (map2 (λ x, x + 1.0) (onehot n c label a)).

(** Closed forms of the three results of [LGMLoss.forward]. *)
Definition LGMLoss_logits_cf (self : LGMLoss.t) (feat : mat) : mat :=
  map2 (Rmult (-0.5))
    (zip_with (zip_with Rplus)
       (replicate (length feat) (sum_last2 (LGMLoss.log_covs self)))
       (LGMLoss_dist_cf self feat)).

Definition LGMLoss_margin_logits_cf (self : LGMLoss.t) (feat : mat)
    (label : list Z) : mat :=
  map2 (Rmult (-0.5))
    (zip_with (zip_with Rplus)
       (replicate (length feat) (sum_last2 (LGMLoss.log_covs self)))
       (margin_cf (length feat) (LGMLoss.num_classes self)
          (LGMLoss_dist_cf self feat) label (LGMLoss.alpha self))).

(** [cdiff.pow(2).sum(1).sum(0)], with the selected centers written out. *)
Definition cdist_cf (centers feat : mat) (label : list Z) : R :=
  sum (sum_last2 (map2 (λ x, x ^ 2)
         (zip_with (zip_with Rminus) feat
            ((λ l, centers !!! Z.to_nat l) <$> label)))).

Definition LGMLoss_likelihood_cf (self : LGMLoss.t) (feat : mat)
    (label : list Z) : R :=
  (1.0 / INR (length feat)) *
  (cdist_cf (LGMLoss.centers self) feat label / 2.0 +
   0.5 * sum ((λ l, sum_last2 (LGMLoss.log_covs self) !!! Z.to_nat l) <$> label)).

(** The same for [LGMLoss_v0]: invariant and closed forms. *)
Definition LGMLoss_v0_wf (self : LGMLoss_v0.t) : Prop :=
  shape (LGMLoss_v0.centers self) (LGMLoss_v0.num_classes self)
    (LGMLoss_v0.feat_dim self).

Definition LGMLoss_v0_dist_cf (self : LGMLoss_v0.t) (feat : mat) : mat :=
  let D1 := diffs feat (LGMLoss_v0.centers self) in
  sum_last3 (zip_with (zip_with (zip_with Rmult)) D1 D1).

Definition LGMLoss_v0_logits_cf (self : LGMLoss_v0.t) (feat : mat) : mat :=
  map2 (Rmult (-0.5)) (LGMLoss_v0_dist_cf self feat).

Definition LGMLoss_v0_margin_logits_cf (self : LGMLoss_v0.t) (feat : mat)
    (label : list Z) : mat :=
  map2 (Rmult (-0.5))
    (margin_cf (length feat) (LGMLoss_v0.num_classes self)
       (LGMLoss_v0_dist_cf self feat) label (LGMLoss_v0.alpha self)).

Definition LGMLoss_v0_likelihood_cf (self : LGMLoss_v0.t) (feat : mat)
    (label : list Z) : R :=
  (1.0 / INR (length feat)) * cdist_cf (LGMLoss_v0.centers self) feat label / 2.0.

(** Entry [t[i, d]] of a well-shaped matrix. *)
Definition get (t : mat) (i d : nat) : R := (t !!! i) !!! d.

(** Either module: invariant, configuration, the two stages of [forward]
    and the closed forms. *)
Definition lgm_wf (l : lgm_module) : Prop :=
  match l with
  | Full self => LGMLoss_wf self
  | Identity self => LGMLoss_v0_wf self
  end.

Definition lgm_num_classes (l : lgm_module) : nat :=
  match l with
  | Full self => LGMLoss.num_classes self
  | Identity self => LGMLoss_v0.num_classes self
  end.

Definition lgm_feat_dim (l : lgm_module) : nat :=
  match l with
  | Full self => LGMLoss.feat_dim self
  | Identity self => LGMLoss_v0.feat_dim self
  end.

Definition lgm_alpha (l : lgm_module) : R :=
  match l with
  | Full self => LGMLoss.alpha self
  | Identity self => LGMLoss_v0.alpha self
  end.

Definition lgm_dist (l : lgm_module) : mat → result mat :=
  match l with
  | Full self => LGMLoss.dist self
  | Identity self => LGMLoss_v0.dist self
  end.

Definition lgm_margin_dist (l : lgm_module) : nat → mat → list Z → result mat :=
  match l with
  | Full self => LGMLoss.margin_dist self
  | Identity self => LGMLoss_v0.margin_dist self
  end.

(** Line 52 selects the labels from the squeezed (1, num_classes) tensor.
    With one class that tensor has no dimension left and takes exactly one
    index, so [LGMLoss.forward] raises there on every batch of another
    size; [LGMLoss_v0.forward] has no such selection. *)
Definition one_class_mismatch (l : lgm_module) (n : nat) : Prop :=
  match l with
  | Full self => LGMLoss.num_classes self = 1%nat ∧ n ≠ 1%nat
  | Identity _ => False
  end.

#[export] Instance one_class_mismatch_dec (l : lgm_module) (n : nat) :
  Decision (one_class_mismatch l n).
Proof. destruct l; apply _. Defined.

(** The logit of class [k] as a function of its distance, eq. (17):
    [LGMLoss] adds the sum of the log-variances of the class,
    [LGMLoss_v0] has none. *)
Definition lgm_logit (l : lgm_module) (k : nat) (d : R) : R :=
  match l with
  | Full self =>
      -0.5 * (big_sum (LGMLoss.feat_dim self)
                (λ j, get (LGMLoss.log_covs self) k j) + d)
  | Identity _ => -0.5 * d
  end.

Definition lgm_dist_cf (l : lgm_module) : mat → mat :=
  match l with
  | Full self => LGMLoss_dist_cf self
  | Identity self => LGMLoss_v0_dist_cf self
  end.

Definition lgm_logits_cf (l : lgm_module) : mat → mat :=
  match l with
  | Full self => LGMLoss_logits_cf self
  | Identity self => LGMLoss_v0_logits_cf self
  end.

Definition lgm_margin_logits_cf (l : lgm_module) : mat → list Z → mat :=
  match l with
  | Full self => LGMLoss_margin_logits_cf self
  | Identity self => LGMLoss_v0_margin_logits_cf self
  end.

Definition lgm_likelihood_cf (l : lgm_module) : mat → list Z → R :=
  match l with
  | Full self => LGMLoss_likelihood_cf self
  | Identity self => LGMLoss_v0_likelihood_cf self
  end.

(** The margin weight of entry (i, k): the scattered [alpha] or 0, plus 1. *)
Definition weight (a : R) (k : nat) (li : Z) : R :=
  (if decide (Z.of_nat k = li) then a else 0) + 1.0.

(** The class of sample [i]. *)
Definition class_of (label : list Z) (i : nat) : nat := Z.to_nat (label !!! i).

(** The behaviour the design asks for, in its own words: labels are
    validated before anything is indexed, and an out-of-range label fails
    with [InvalidLabel]. *)
Definition validate_labels (num_classes : nat) (label : list Z) : result unit :=
  if decide (valid_labels num_classes label) then Ok () else Err InvalidLabel.

Definition forward_validated (l : lgm_module) (feat : mat) (label : list Z)
  : result (mat * mat * R) :=
  _ ← validate_labels (lgm_num_classes l) label; lgm_forward l feat label.

(** The likelihoods returned on well-shaped features. *)
Definition likelihood_cf (centers feats : mat) (claimed_class : list Z) : vec :=
  (λ row, exp (-0.5 * LGMUtils.norm2 row ^ 2)) <$>
  zip_with (zip_with Rminus) feats
    ((λ l, centers !!! Z.to_nat l) <$> claimed_class).

(** [p] is the position of the first maximal entry of [row]. *)
Definition first_max (row : vec) (p : nat) : Prop :=
  (p < length row)%nat ∧
  (∀ j, (j < length row)%nat → row !!! j <= row !!! p) ∧
  (∀ j, (j < p)%nat → row !!! j < row !!! p).

(** [argmax] without the failure on an empty row. *)
Definition argmax_d (row : vec) : nat :=
  match row with
  | [] => 0%nat
  | x :: v => max_from x 0%nat 1%nat v
  end.

(** The flags returned on well-shaped features. *)
Definition anomalous_cf (logits : mat) (claimed_class : list Z) : list bool :=
  zip_with (λ p c, negb (Z.of_nat p =? c)%Z) (argmax_d <$> logits) claimed_class.

(** The two-class, two-dimensional model of the example, with the identity
    as feature extractor. *)
Definition example_model (l : lgm_module) : LGMUtils.model mat := LGMUtils.mk (λ x, x) l.
Definition example_full : lgm_module := Full (LGMLoss.init 2 2 0 [[0; 0]; [10; 10]]).
Definition example_v0 : lgm_module := Identity (LGMLoss_v0.mk 2 2 0 [[0; 0]; [10; 10]]).

(** The variance of class [k] in dimension [d]: [exp] of the log-variance
    in [LGMLoss], 1 in [LGMLoss_v0]. *)
Definition lgm_cov (l : lgm_module) (k d : nat) : R :=
  match l with
  | Full self => exp (get (LGMLoss.log_covs self) k d)
  | Identity _ => 1
  end.

(** The same module constructed with another margin. *)
Definition lgm_with_alpha (a : R) (l : lgm_module) : lgm_module :=
  match l with
  | Full self =>
      Full (LGMLoss.mk (LGMLoss.feat_dim self) (LGMLoss.num_classes self) a
              (LGMLoss.centers self) (LGMLoss.log_covs self))
  | Identity self =>
      Identity (LGMLoss_v0.mk (LGMLoss_v0.feat_dim self)
                  (LGMLoss_v0.num_classes self) a (LGMLoss_v0.centers self))
  end.

(** A negative index counted from the end of a dimension of size [c]. *)
Definition wrap_index (c : nat) (j : Z) : Z :=
  if decide (j < 0)%Z then (j + Z.of_nat c)%Z else j.

(** Squared Euclidean distance between sample [i] and center [k]. *)
Definition sq_dist (d : nat) (feat centers : mat) (i k : nat) : R :=
  big_sum d (λ j, (get feat i j - get centers k j) ^ 2).

(** The sum of the log-variances of class [k]; [LGMLoss_v0] has none. *)
Definition lgm_slog_cov (l : lgm_module) (k : nat) : R :=
  match l with
  | Full self =>
      big_sum (LGMLoss.feat_dim self) (λ d, get (LGMLoss.log_covs self) k d)
  | Identity _ => 0
  end.

(** The weights of [forward] when there are fewer labels than samples:
    the rows beyond the labels keep the weight 0 + 1. *)
Definition short_weights (n c : nat) (label : list Z) (a : R) : mat :=
  map2 (λ x, x + 1.0)
    (onehot (length label) c label a ++ zeros (n - length label) c).

End vocabulary.

(** * Properties *)

(** ** The result monad and broadcasting *)
Section monad_lemmas.
Import Torch.
Context {A B C : Type}.

Lemma mapM_Ok (f : A → result B) (g : A → B) (l : list A) :
  Forall (λ x, f x = Ok (g x)) l → mapM f l = Ok (g <$> l).
Proof.
  induction 1 as [|x l Hx _ IH]; [done|].
  cbn. rewrite Hx. cbn. rewrite IH. done.
Qed.

(** The first failure decides, so a list on which every failure is [e]
    and some element fails yields [e]. *)
Lemma mapM_Err (f : A → result B) (e : error) (l : list A) :
  Forall (λ x, f x = Err e ∨ ∃ y, f x = Ok y) l →
  Exists (λ x, f x = Err e) l →
  mapM f l = Err e.
Proof.
  induction 1 as [|x l Hx Hl IH]; intros Hex.
  - by apply Exists_nil in Hex.
  - cbn. destruct Hx as [Hx|[y Hx]]; rewrite Hx; [done|]. cbn.
    apply Exists_cons in Hex as [Hex|Hex]; [congruence|].
    rewrite IH; done.
Qed.

Lemma zipM_Ok (f : A → B → result C) (g : A → B → C) x y :
  Forall2 (λ a b, f a b = Ok (g a b)) x y →
  zipM f x y = Ok (zip_with g x y).
Proof.
  unfold zipM. induction 1 as [|a b x y Hab _ IH]; [done|].
  cbn. rewrite Hab. cbn. rewrite IH. done.
Qed.

Lemma bcast_same (f : A → B → result C) x y :
  length x = length y → bcast f x y = zipM f x y.
Proof.
  intros Hlen. destruct x as [|a [|a' x]], y as [|b [|b' y]];
    simplify_eq/=; try done; by rewrite decide_True by (simpl; lia).
Qed.

Lemma bcast_r1 (f : A → B → result C) x b :
  bcast f x [b] = mapM (λ a, f a b) x.
Proof. by destruct x as [|a [|a' x]]. Qed.

Lemma bcast_Ok (f : A → B → result C) (g : A → B → C) x y :
  Forall2 (λ a b, f a b = Ok (g a b)) x y →
  bcast f x y = Ok (zip_with g x y).
Proof.
  intros H. rewrite bcast_same by eapply Forall2_length, H.
  by apply zipM_Ok.
Qed.

End monad_lemmas.

Section shapes.
Import Torch.

Lemma ew1_same op (x y : vec) :
  length x = length y → ew1 op x y = Ok (zip_with op x y).
Proof.
  intros Hlen. apply bcast_Ok, Forall2_same_length_lookup_2; [done|].
  done.
Qed.

Lemma ew2_same op (x y : mat) :
  Forall2 (λ a b, length a = length b) x y →
  ew2 op x y = Ok (zip_with (zip_with op) x y).
Proof.
  intros H. apply bcast_Ok. eapply Forall2_impl; [exact H|].
  intros a b Hab. by apply ew1_same.
Qed.

Lemma ew3_same op (x y : ten3) :
  Forall2 (Forall2 (λ a b, length a = length b)) x y →
  ew3 op x y = Ok (zip_with (zip_with (zip_with op)) x y).
Proof.
  intros H. apply bcast_Ok. eapply Forall2_impl; [exact H|].
  intros a b Hab. by apply ew2_same.
Qed.

End shapes.

(** ** Closed forms of the tensor pipelines on well-shaped inputs *)
Section closed_forms.
Import Torch.

Lemma mapM_fmap {A B C} (f : B → result C) (h : A → B) (l : list A) :
  mapM f (h <$> l) = mapM (λ a, f (h a)) l.
Proof. induction l as [|a l IH]; [done|]. cbn. by rewrite IH. Qed.

Lemma bind_Ok {A B} (a : A) (k : A → result B) : Ok a ≫= k = k a.
Proof. done. Qed.

Lemma fmap_Ok {A B} (f : A → B) (a : A) : f <$> Ok a = Ok (f a).
Proof. done. Qed.

Lemma map3_unsqueeze0 (f : R → R) (m : mat) :
  map3 f (unsqueeze0 m) = unsqueeze0 (map2 f m).
Proof. done. Qed.

Lemma sum_last3_unsqueeze0 (m : mat) :
  sum_last3 (unsqueeze0 m) = unsqueeze0 (sum_last2 m).
Proof. done. Qed.

Lemma repeat0_unsqueeze0 {A} (n : nat) (x : A) :
  repeat0 n (unsqueeze0 x) = replicate n x.
Proof. unfold repeat0, unsqueeze0. induction n; cbn; by f_equal. Qed.

Lemma diffs_Ok (feat centers : mat) (d : nat) :
  Forall (λ r, length r = d) feat →
  Forall (λ r, length r = d) centers →
  ew3 Rminus (unsqueeze1 feat) (unsqueeze0 centers) = Ok (diffs feat centers).
Proof.
  intros Hf Hc. unfold ew3, unsqueeze0, unsqueeze1, diffs.
  rewrite bcast_r1, mapM_fmap. apply mapM_Ok.
  eapply Forall_impl; [exact Hf|]. intros f Hlf. cbn.
  apply mapM_Ok. eapply Forall_impl; [exact Hc|]. intros c Hlc. cbn.
  apply ew1_same. congruence.
Qed.

Lemma diffs_shape (feat centers : mat) (n c d : nat) :
  shape feat n d → shape centers c d → shape3 (diffs feat centers) n c d.
Proof.
  intros [Hn Hf] [Hc Hcd]. split.
  - unfold diffs. by rewrite length_fmap.
  - unfold diffs. apply Forall_fmap. eapply Forall_impl; [exact Hf|].
    intros f Hlf. cbn in *. split; [by rewrite length_fmap|].
    apply Forall_fmap. eapply Forall_impl; [exact Hcd|].
    intros c' Hlc. cbn in *. rewrite length_zip_with. lia.
Qed.

Lemma shape_Forall2 (x y : mat) (c d : nat) :
  shape x c d → shape y c d → Forall2 (λ a b, length a = length b) x y.
Proof.
  intros [Hx Hxd] [Hy Hyd]. apply Forall2_same_length_lookup_2; [congruence|].
  intros i a b Ha Hb.
  rewrite Forall_lookup in Hxd. rewrite Forall_lookup in Hyd.
  rewrite (Hxd _ _ Ha), (Hyd _ _ Hb). done.
Qed.

Lemma shape3_Forall2 (x y : ten3) (n c d : nat) :
  shape3 x n c d → shape3 y n c d →
  Forall2 (Forall2 (λ a b, length a = length b)) x y.
Proof.
  intros [Hx Hxd] [Hy Hyd]. apply Forall2_same_length_lookup_2; [congruence|].
  intros i a b Ha Hb.
  rewrite Forall_lookup in Hxd. rewrite Forall_lookup in Hyd.
  eapply shape_Forall2; eauto.
Qed.

Lemma shape_zip_with op (x y : mat) (c d : nat) :
  shape x c d → shape y c d → shape (zip_with (zip_with op) x y) c d.
Proof.
  intros [Hx Hxd] [Hy Hyd]. split; [rewrite length_zip_with; lia|].
  apply Forall_lookup. intros i r Hr.
  apply lookup_zip_with_Some in Hr as (a & b & -> & Ha & Hb).
  rewrite Forall_lookup in Hxd. rewrite Forall_lookup in Hyd.
  rewrite length_zip_with, (Hxd _ _ Ha), (Hyd _ _ Hb). lia.
Qed.

Lemma shape3_zip_with op (x y : ten3) (n c d : nat) :
  shape3 x n c d → shape3 y n c d →
  shape3 (zip_with (zip_with (zip_with op)) x y) n c d.
Proof.
  intros [Hx Hxd] [Hy Hyd]. split; [rewrite length_zip_with; lia|].
  apply Forall_lookup. intros i r Hr.
  apply lookup_zip_with_Some in Hr as (a & b & -> & Ha & Hb).
  rewrite Forall_lookup in Hxd. rewrite Forall_lookup in Hyd.
  eapply shape_zip_with; eauto.
Qed.

Lemma shape3_replicate (m : mat) (n c d : nat) :
  shape m c d → shape3 (replicate n m) n c d.
Proof.
  intros Hm. split; [by rewrite length_replicate|].
  apply Forall_replicate; done.
Qed.

Lemma shape_map2 f (m : mat) (c d : nat) :
  shape m c d → shape (map2 f m) c d.
Proof.
  intros [Hm Hd]. split; [unfold map2; by rewrite length_fmap|].
  unfold map2. apply Forall_fmap. eapply Forall_impl; [exact Hd|].
  intros r Hr. cbn. unfold map1. by rewrite length_fmap.
Qed.

End closed_forms.

Section sums.
Import Torch.

Lemma big_sum_ext (n : nat) (f g : nat → R) :
  (∀ d, (d < n)%nat → f d = g d) → big_sum n f = big_sum n g.
Proof.
  revert f g. induction n as [|n IH]; intros f g H; [done|].
  cbn. rewrite (H O) by lia. f_equal. apply IH. intros d Hd. apply H. lia.
Qed.

Lemma sum_big_sum (v : vec) :
  sum v = big_sum (length v) (λ d, v !!! d).
Proof.
  induction v as [|x v IH]; [done|].
  change (sum (x :: v)) with (x + sum v). rewrite IH. done.
Qed.

Lemma sum_cons (x : R) (v : vec) : sum (x :: v) = x + sum v.
Proof. done. Qed.

Lemma big_sum_nonneg (n : nat) (f : nat → R) :
  (∀ d, (d < n)%nat → 0 <= f d) → 0 <= big_sum n f.
Proof.
  revert f. induction n as [|n IH]; intros f H; cbn; [lra|].
  assert (0 <= f O) by (apply H; lia).
  assert (0 <= big_sum n (λ d, f (S d))) by (apply IH; intros; apply H; lia).
  lra.
Qed.

End sums.

(** ** LGMLoss.forward on well-shaped inputs *)
Section LGMLoss_facts.
Import Torch.

Lemma LGMLoss_dist_Ok (self : LGMLoss.t) (feat : mat) (n : nat) :
  LGMLoss_wf self → shape feat n (LGMLoss.feat_dim self) →
  LGMLoss.dist self feat = Ok (LGMLoss_dist_cf self feat).
Proof.
  intros [Hc Hl] Hf. unfold LGMLoss.dist, LGMLoss_dist_cf.
  pose proof (diffs_shape _ _ _ _ _ Hf Hc) as HD1.
  assert (Htc : shape3 (replicate (length feat) (map2 exp (LGMLoss.log_covs self)))
                  n (LGMLoss.num_classes self) (LGMLoss.feat_dim self)).
  { destruct Hf as [<- _]. by apply shape3_replicate, shape_map2. }
  cbv zeta. rewrite map3_unsqueeze0, repeat0_unsqueeze0.
  rewrite (diffs_Ok _ _ (LGMLoss.feat_dim self)), bind_Ok
    by (apply Hf || apply Hc).
  rewrite ew3_same, bind_Ok by (eapply shape3_Forall2; eauto).
  rewrite ew3_same, bind_Ok
    by (eapply shape3_Forall2; [exact HD1|by apply shape3_zip_with]).
  done.
Qed.

Lemma LGMLoss_dist_cf_entry (self : LGMLoss.t) (feat : mat) i k f c lc :
  feat !! i = Some f →
  LGMLoss.centers self !! k = Some c →
  LGMLoss.log_covs self !! k = Some lc →
  entry (LGMLoss_dist_cf self feat) i k =
    Some (sum (zip_with Rmult (zip_with Rminus f c)
                 (zip_with Rdiv (zip_with Rminus f c) (exp <$> lc)))).
Proof.
  intros Hf Hc Hl. unfold entry, LGMLoss_dist_cf, sum_last3, sum_last2, diffs, map2, map1.
  assert (Hi : (i < length feat)%nat) by (eapply lookup_lt_Some; eauto).
  rewrite !list_lookup_fmap, !lookup_zip_with, !list_lookup_fmap, Hf,
    lookup_replicate_2 by done.
  cbn -[sum].
  rewrite !list_lookup_fmap, !lookup_zip_with, !list_lookup_fmap, Hc, Hl.
  done.
Qed.

End LGMLoss_facts.

(** ** Indexing by labels *)
Section indexing.
Import Torch.

Lemma zipM_fmap_r {A B B' C} (f : A → B' → result C) (h : B → B')
    (x : list A) (y : list B) :
  zipM f x (h <$> y) = zipM (λ a b, f a (h b)) x y.
Proof.
  unfold zipM. revert y. induction x as [|a x IH]; intros [|b y]; try done.
  cbn. by rewrite IH.
Qed.

Lemma valid_label_lookup {A} (t : list A) (l : Z) :
  (0 ≤ l < Z.of_nat (length t))%Z → is_Some (t !! Z.to_nat l).
Proof. intros Hl. apply lookup_lt_is_Some. lia. Qed.

Lemma index_select_Ok `{!Inhabited A} (t : list A) (label : list Z) :
  valid_labels (length t) label →
  index_select t label = Ok ((λ l, t !!! Z.to_nat l) <$> label).
Proof.
  intros Hv. apply mapM_Ok. eapply Forall_impl; [exact Hv|].
  intros l Hl. cbn in *. rewrite decide_True by lia.
  destruct (valid_label_lookup t l Hl) as [x Hx].
  by rewrite Hx, (list_lookup_total_correct _ _ _ Hx).
Qed.

Lemma index_select_step {A} (t : list A) (l : Z) :
  (if decide (0 ≤ l)%Z
   then match t !! Z.to_nat l with
        | Some x => Ok x
        | None => Err Undefined
        end
   else Err Undefined) = Err Undefined ∨
  ∃ x, (if decide (0 ≤ l)%Z
        then match t !! Z.to_nat l with
             | Some x => Ok x
             | None => Err Undefined
             end
        else Err Undefined) = Ok x.
Proof. destruct (decide _); [destruct (t !! _)|]; eauto. Qed.

Lemma index_select_Err {A} (t : list A) (label : list Z) :
  ¬ valid_labels (length t) label →
  index_select t label = Err Undefined.
Proof.
  intros Hv. apply mapM_Err.
  - apply Forall_forall. intros l _. apply index_select_step.
  - apply not_Forall_Exists in Hv; [|intros l; apply _].
    eapply Exists_impl; [exact Hv|]. intros l Hl. cbn in *.
    destruct (decide (0 ≤ l)%Z); [|done].
    assert (Hnone : t !! Z.to_nat l = None) by (apply lookup_ge_None; lia).
    by rewrite Hnone.
Qed.

Lemma scatter_row_1 (row : vec) (l : Z) (v : R) :
  scatter_row row [l] v =
    if decide (0 ≤ l < Z.of_nat (length row))%Z
    then Ok (<[Z.to_nat l := v]> row) else Err Undefined.
Proof. done. Qed.

Lemma scatter_Ok (n c : nat) (label : list Z) (v : R) :
  length label = n → valid_labels c label →
  scatter_ (zeros n c) (unsqueeze_last label) v = Ok (onehot n c label v).
Proof.
  intros Hn Hv. unfold scatter_, unsqueeze_last, zeros, onehot.
  rewrite length_fmap, length_replicate, Hn, decide_True by lia.
  rewrite firstn_all2, skipn_all2 by (rewrite length_replicate; lia).
  rewrite zipM_fmap_r.
  rewrite (zipM_Ok _ (λ row l, <[Z.to_nat l := v]> row)), bind_Ok.
  { by rewrite app_nil_r. }
  apply Forall2_same_length_lookup_2; [by rewrite length_replicate|].
  intros i row l Hrow Hl. apply lookup_replicate in Hrow as [-> _].
  rewrite scatter_row_1, length_replicate, decide_True; [done|].
  unfold valid_labels in Hv. rewrite Forall_lookup in Hv. eauto.
Qed.

Lemma scatter_Err (n c : nat) (label : list Z) (v : R) :
  length label = n → ¬ valid_labels c label →
  scatter_ (zeros n c) (unsqueeze_last label) v = Err Undefined.
Proof.
  intros Hn Hv. unfold scatter_, unsqueeze_last, zeros.
  rewrite length_fmap, length_replicate, Hn, decide_True by lia.
  rewrite firstn_all2 by (rewrite length_replicate; lia).
  rewrite zipM_fmap_r. unfold zipM. rewrite (mapM_Err _ Undefined); [done| |].
  - apply Forall_forall. intros [row l] Hin. cbn [fst snd].
    rewrite scatter_row_1. destruct (decide _); eauto.
  - apply not_Forall_Exists in Hv; [|intros l; apply _].
    apply Exists_exists in Hv as (l & Hin & Hl).
    apply list_elem_of_lookup in Hin as [i Hi].
    apply Exists_exists. exists (replicate c 0, l). split.
    + apply list_elem_of_lookup. exists i.
      rewrite lookup_zip_with, lookup_replicate_2, Hi; [done|].
      apply lookup_lt_Some in Hi. lia.
    + cbn [fst snd]. rewrite scatter_row_1, length_replicate, decide_False; done.
Qed.

Lemma onehot_entry (n c : nat) (label : list Z) (v : R) i k l :
  label !! i = Some l → (0 ≤ l)%Z → (i < n)%nat → (k < c)%nat →
  entry (onehot n c label v) i k = Some (if decide (Z.of_nat k = l) then v else 0).
Proof.
  intros Hl Hl0 Hi Hk. unfold entry, onehot, zeros.
  rewrite lookup_zip_with, lookup_replicate_2, Hl by done. cbn.
  destruct (decide (Z.of_nat k = l)) as [<-|Hne].
  - rewrite Nat2Z.id, list_lookup_insert_eq; [done|by rewrite length_replicate].
  - rewrite list_lookup_insert_ne by lia. by rewrite lookup_replicate_2.
Qed.

Lemma onehot_shape (n c : nat) (label : list Z) (v : R) :
  length label = n → shape (onehot n c label v) n c.
Proof.
  intros Hn. unfold onehot, zeros. split.
  - rewrite length_zip_with, length_replicate. lia.
  - apply Forall_lookup. intros i r Hr.
    apply lookup_zip_with_Some in Hr as (row & l & -> & Hrow & _).
    apply lookup_replicate in Hrow as [-> _].
    by rewrite length_insert, length_replicate.
Qed.

End indexing.

(** ** The margin weights and the whole of [forward] *)
Section forward_facts.
Import Torch.

Lemma shape_sum_last3 (t : ten3) (n c d : nat) :
  shape3 t n c d → shape (sum_last3 t) n c.
Proof.
  intros [Hn Ht]. unfold sum_last3, sum_last2. split; [by rewrite length_fmap|].
  apply Forall_fmap. eapply Forall_impl; [exact Ht|].
  intros m [Hm _]. cbn. by rewrite length_fmap.
Qed.

Lemma shape_replicate (r : vec) (n : nat) :
  shape (replicate n r) n (length r).
Proof. split; [by rewrite length_replicate|]. by apply Forall_replicate. Qed.

(** The selection of line 52 on what line 51 leaves of the (1, c) tensor:
    with one class the tensor has lost its dimension and takes one index
    only. *)
Lemma index_select_squeezed_valid (v : vec) (label : list Z) :
  valid_labels (length v) label →
  index_select_squeezed (squeeze (unsqueeze0 v)) label =
    if decide (length v = 1%nat ∧ length label ≠ 1%nat)
    then Err IndexToScalar
    else Ok ((λ l, v !!! Z.to_nat l) <$> label).
Proof.
  intros Hv. destruct v as [|x [|y v]].
  - rewrite decide_False by (cbn; lia). by apply (index_select_Ok []).
  - destruct label as [|j [|j' label]]; cbn [squeeze unsqueeze0
      index_select_squeezed length].
    + by rewrite decide_True by lia.
    + apply Forall_cons in Hv as [Hj _]. cbn in Hj.
      assert (j = 0%Z) as -> by lia.
      rewrite (decide_True _ _ (eq_refl 0%Z)). by rewrite decide_False by lia.
    + by rewrite decide_True by lia.
  - rewrite decide_False by (cbn; lia).
    change (squeeze (unsqueeze0 (x :: y :: v)))
      with (Vector ((x :: y :: v) ++ [])).
    rewrite app_nil_r. by apply index_select_Ok.
Qed.

Lemma margin_body_Ok (n c : nat) (dist : mat) (label : list Z) (a : R) :
  shape dist n c → length label = n → valid_labels c label →
  (y_onehot ← scatter_ (zeros n c) (unsqueeze_last label) a;
   ew2 Rmult dist (map2 (λ x, x + 1.0) y_onehot))
  = Ok (margin_cf n c dist label a).
Proof.
  intros Hd Hn Hv. rewrite scatter_Ok, bind_Ok by done.
  apply ew2_same. eapply shape_Forall2; [exact Hd|].
  by apply shape_map2, onehot_shape.
Qed.

Lemma margin_body_Err (n c : nat) (dist : mat) (label : list Z) (a : R) :
  length label = n → ¬ valid_labels c label →
  (y_onehot ← scatter_ (zeros n c) (unsqueeze_last label) a;
   ew2 Rmult dist (map2 (λ x, x + 1.0) y_onehot))
  = Err Undefined.
Proof. intros Hn Hv. by rewrite scatter_Err. Qed.

Lemma margin_cf_shape (n c : nat) (dist : mat) (label : list Z) (a : R) :
  shape dist n c → length label = n → shape (margin_cf n c dist label a) n c.
Proof.
  intros Hd Hn. apply shape_zip_with; [done|].
  by apply shape_map2, onehot_shape.
Qed.

Lemma margin_cf_entry (n c : nat) (dist : mat) (label : list Z) (a : R)
    i k l x :
  label !! i = Some l → (0 ≤ l)%Z → (i < n)%nat → (k < c)%nat →
  entry dist i k = Some x →
  entry (margin_cf n c dist label a) i k =
    Some (x * ((if decide (Z.of_nat k = l) then a else 0) + 1.0)).
Proof.
  intros Hl Hl0 Hi Hk Hx.
  pose proof (onehot_entry n c label a i k l Hl Hl0 Hi Hk) as Ho.
  unfold entry, margin_cf, map2, map1 in *.
  destruct (dist !! i) as [dr|] eqn:Hdr; [|done].
  destruct (onehot n c label a !! i) as [orow|] eqn:Hor; [|done].
  cbn in Hx, Ho.
  rewrite lookup_zip_with, Hdr, list_lookup_fmap, Hor. cbn.
  rewrite lookup_zip_with, Hx, list_lookup_fmap, Ho. done.
Qed.

Lemma LGMLoss_dist_cf_shape (self : LGMLoss.t) (feat : mat) (n : nat) :
  LGMLoss_wf self → shape feat n (LGMLoss.feat_dim self) →
  shape (LGMLoss_dist_cf self feat) n (LGMLoss.num_classes self).
Proof.
  intros [Hc Hl] Hf. unfold LGMLoss_dist_cf.
  pose proof (diffs_shape _ _ _ _ _ Hf Hc) as HD1.
  assert (Htc : shape3 (replicate (length feat) (map2 exp (LGMLoss.log_covs self)))
                  n (LGMLoss.num_classes self) (LGMLoss.feat_dim self)).
  { destruct Hf as [<- _]. by apply shape3_replicate, shape_map2. }
  eapply shape_sum_last3, shape3_zip_with; [exact HD1|].
  by apply shape3_zip_with.
Qed.

Lemma select_rows_Forall2 (centers feat : mat) (label : list Z) (n c d : nat) :
  shape centers c d → shape feat n d → length label = n →
  valid_labels c label →
  Forall2 (λ a b : vec, length a = length b) feat
    ((λ l, centers !!! Z.to_nat l) <$> label).
Proof.
  intros [Hc Hcd] [Hn Hfd] Hl Hv.
  apply Forall2_same_length_lookup_2; [rewrite length_fmap; lia|].
  intros i f b Hf Hb. rewrite list_lookup_fmap in Hb.
  destruct (label !! i) as [l|] eqn:Hli; [|done]. simplify_eq/=.
  rewrite Forall_lookup in Hfd. rewrite (Hfd _ _ Hf).
  unfold valid_labels in Hv. rewrite Forall_lookup in Hv.
  specialize (Hv _ _ Hli). cbn in Hv.
  destruct (valid_label_lookup centers l ltac:(lia)) as [x Hx].
  rewrite (list_lookup_total_correct _ _ _ Hx).
  rewrite Forall_lookup in Hcd. by rewrite (Hcd _ _ Hx).
Qed.

Lemma sum_last2_length (m : mat) : length (sum_last2 m) = length m.
Proof. unfold sum_last2. by rewrite length_fmap. Qed.

Theorem LGMLoss_forward_valid (self : LGMLoss.t) (feat : mat)
    (label : list Z) (n : nat) :
  LGMLoss_wf self → shape feat n (LGMLoss.feat_dim self) →
  length label = n → valid_labels (LGMLoss.num_classes self) label →
  LGMLoss.forward self feat label =
    if decide (LGMLoss.num_classes self = 1%nat ∧ n ≠ 1%nat)
    then Err IndexToScalar
    else if decide (n = 0%nat) then Err ZeroDivision
    else Ok (LGMLoss_logits_cf self feat,
             LGMLoss_margin_logits_cf self feat label,
             LGMLoss_likelihood_cf self feat label).
Proof.
  intros Hwf Hf Hn Hv. rewrite <- Hn.
  assert (n = length feat) as -> by (by destruct Hf).
  pose proof (LGMLoss_dist_cf_shape self feat _ Hwf Hf) as Hds.
  destruct Hwf as [Hc Hlc].
  assert (Hts : shape (replicate (length feat) (sum_last2 (LGMLoss.log_covs self)))
                  (length feat) (LGMLoss.num_classes self)).
  { split; [by rewrite length_replicate|]. apply Forall_replicate.
    rewrite sum_last2_length. by destruct Hlc. }
  unfold LGMLoss.forward. cbv zeta.
  rewrite (LGMLoss_dist_Ok self feat (length feat)), bind_Ok by done.
  unfold LGMLoss.margin_dist, cuda. cbv zeta.
  rewrite margin_body_Ok, bind_Ok by done.
  rewrite sum_last3_unsqueeze0, repeat0_unsqueeze0.
  rewrite (ew2_same Rplus _ (margin_cf _ _ _ _ _)), fmap_Ok, bind_Ok
    by (eapply shape_Forall2; [exact Hts|by apply margin_cf_shape]).
  rewrite (ew2_same Rplus _ (LGMLoss_dist_cf _ _)), fmap_Ok, bind_Ok
    by (eapply shape_Forall2; [exact Hts|done]).
  rewrite (index_select_Ok (LGMLoss.centers self)), bind_Ok
    by (by destruct Hc as [-> _]).
  rewrite ew2_same, bind_Ok by (eapply select_rows_Forall2; eauto).
  rewrite index_select_squeezed_valid
    by (rewrite sum_last2_length; by destruct Hlc as [-> _]).
  rewrite sum_last2_length. destruct Hlc as [-> _].
  destruct (decide (_ ∧ _)); [done|]. by rewrite bind_Ok, Hn.
Qed.

(** An out-of-range label goes unchecked into [scatter_]. *)
Theorem LGMLoss_forward_Err (self : LGMLoss.t) (feat : mat) (label : list Z)
    (n : nat) :
  LGMLoss_wf self → shape feat n (LGMLoss.feat_dim self) →
  length label = n → ¬ valid_labels (LGMLoss.num_classes self) label →
  LGMLoss.forward self feat label = Err Undefined.
Proof.
  intros Hwf Hf Hn Hv.
  assert (n = length feat) as -> by (by destruct Hf).
  unfold LGMLoss.forward. cbv zeta.
  rewrite (LGMLoss_dist_Ok self feat (length feat)), bind_Ok by done.
  unfold LGMLoss.margin_dist, cuda. cbv zeta.
  by rewrite margin_body_Err.
Qed.

End forward_facts.

(** ** LGMLoss_v0.forward on well-shaped inputs *)
Section LGMLoss_v0_facts.
Import Torch.

Lemma LGMLoss_v0_dist_Ok (self : LGMLoss_v0.t) (feat : mat) (n : nat) :
  LGMLoss_v0_wf self → shape feat n (LGMLoss_v0.feat_dim self) →
  LGMLoss_v0.dist self feat = Ok (LGMLoss_v0_dist_cf self feat).
Proof.
  intros Hc Hf. unfold LGMLoss_v0.dist, LGMLoss_v0_dist_cf.
  pose proof (diffs_shape _ _ _ _ _ Hf Hc) as HD1.
  rewrite (diffs_Ok _ _ (LGMLoss_v0.feat_dim self)), bind_Ok
    by (apply Hf || apply Hc).
  rewrite ew3_same, bind_Ok by (eapply shape3_Forall2; eauto).
  done.
Qed.

Lemma LGMLoss_v0_dist_cf_shape (self : LGMLoss_v0.t) (feat : mat) (n : nat) :
  LGMLoss_v0_wf self → shape feat n (LGMLoss_v0.feat_dim self) →
  shape (LGMLoss_v0_dist_cf self feat) n (LGMLoss_v0.num_classes self).
Proof.
  intros Hc Hf. unfold LGMLoss_v0_dist_cf.
  pose proof (diffs_shape _ _ _ _ _ Hf Hc) as HD1.
  by eapply shape_sum_last3, shape3_zip_with.
Qed.

Lemma LGMLoss_v0_dist_cf_entry (self : LGMLoss_v0.t) (feat : mat) i k f c :
  feat !! i = Some f →
  LGMLoss_v0.centers self !! k = Some c →
  entry (LGMLoss_v0_dist_cf self feat) i k =
    Some (sum (zip_with Rmult (zip_with Rminus f c) (zip_with Rminus f c))).
Proof.
  intros Hf Hc. unfold entry, LGMLoss_v0_dist_cf, sum_last3, sum_last2, diffs.
  rewrite !list_lookup_fmap, !lookup_zip_with, !list_lookup_fmap, Hf.
  cbn -[sum].
  rewrite !list_lookup_fmap, !lookup_zip_with, !list_lookup_fmap, Hc.
  done.
Qed.

Theorem LGMLoss_v0_forward_valid (self : LGMLoss_v0.t) (feat : mat)
    (label : list Z) (n : nat) :
  LGMLoss_v0_wf self → shape feat n (LGMLoss_v0.feat_dim self) →
  length label = n → valid_labels (LGMLoss_v0.num_classes self) label →
  LGMLoss_v0.forward self feat label =
    if decide (n = 0%nat) then Err ZeroDivision
    else Ok (LGMLoss_v0_logits_cf self feat,
             LGMLoss_v0_margin_logits_cf self feat label,
             LGMLoss_v0_likelihood_cf self feat label).
Proof.
  intros Hc Hf Hn Hv.
  assert (n = length feat) as -> by (by destruct Hf).
  pose proof (LGMLoss_v0_dist_cf_shape self feat _ Hc Hf) as Hds.
  unfold LGMLoss_v0.forward. cbv zeta.
  rewrite (LGMLoss_v0_dist_Ok self feat (length feat)), bind_Ok by done.
  unfold LGMLoss_v0.margin_dist, cuda. cbv zeta.
  rewrite margin_body_Ok, bind_Ok by done.
  rewrite index_select_Ok, bind_Ok by (by destruct Hc as [-> _]).
  rewrite ew2_same, bind_Ok by (eapply select_rows_Forall2; eauto).
  done.
Qed.

Theorem LGMLoss_v0_forward_Err (self : LGMLoss_v0.t) (feat : mat)
    (label : list Z) (n : nat) :
  LGMLoss_v0_wf self → shape feat n (LGMLoss_v0.feat_dim self) →
  length label = n → ¬ valid_labels (LGMLoss_v0.num_classes self) label →
  LGMLoss_v0.forward self feat label = Err Undefined.
Proof.
  intros Hwf Hf Hn Hv.
  assert (n = length feat) as -> by (by destruct Hf).
  unfold LGMLoss_v0.forward. cbv zeta.
  rewrite (LGMLoss_v0_dist_Ok self feat (length feat)), bind_Ok by done.
  unfold LGMLoss_v0.margin_dist, cuda. cbv zeta.
  by rewrite margin_body_Err.
Qed.

End LGMLoss_v0_facts.

(** ** Entries of the results *)

Section entries.
Import Torch.

Lemma get_lookup (t : mat) (i d : nat) (r : vec) :
  t !! i = Some r → get t i d = r !!! d.
Proof. intros Hr. unfold get. by rewrite (list_lookup_total_correct _ _ _ Hr). Qed.

Lemma entry_map2 (f : R → R) (m : mat) i k x :
  entry m i k = Some x → entry (map2 f m) i k = Some (f x).
Proof.
  unfold entry, map2, map1. intros H.
  destruct (m !! i) as [r|] eqn:Hr; [|done]. cbn in H.
  rewrite list_lookup_fmap, Hr. cbn. by rewrite list_lookup_fmap, H.
Qed.

Lemma entry_zip_with (op : R → R → R) (a b : mat) i k x y :
  entry a i k = Some x → entry b i k = Some y →
  entry (zip_with (zip_with op) a b) i k = Some (op x y).
Proof.
  unfold entry. intros Ha Hb.
  destruct (a !! i) as [ra|] eqn:Hra; [|done].
  destruct (b !! i) as [rb|] eqn:Hrb; [|done]. cbn in Ha, Hb.
  rewrite lookup_zip_with, Hra, Hrb. cbn.
  by rewrite lookup_zip_with, Ha, Hb.
Qed.

Lemma entry_replicate (n : nat) (r : vec) i k x :
  (i < n)%nat → r !! k = Some x → entry (replicate n r) i k = Some x.
Proof. intros Hi Hk. unfold entry. by rewrite lookup_replicate_2. Qed.

Lemma entry_shape (t : mat) (n c : nat) i k :
  shape t n c → (i < n)%nat → (k < c)%nat → is_Some (entry t i k).
Proof.
  intros [Hn Hc] Hi Hk. unfold entry.
  destruct (lookup_lt_is_Some_2 t i ltac:(lia)) as [r Hr].
  rewrite Hr. cbn. apply lookup_lt_is_Some.
  rewrite Forall_lookup in Hc. rewrite (Hc _ _ Hr). done.
Qed.

Lemma shape_lookup (t : mat) (n c : nat) i :
  shape t n c → (i < n)%nat → ∃ r, t !! i = Some r ∧ length r = c.
Proof.
  intros [Hn Hc] Hi.
  destruct (lookup_lt_is_Some_2 t i ltac:(lia)) as [r Hr].
  exists r. split; [done|]. rewrite Forall_lookup in Hc. eauto.
Qed.

(** The weighted sum of squares computed by [mul(diff, div(diff, covs))]
    and [sum(dim=-1)] is the Mahalanobis form of eq. (18). *)
Lemma sum_mahalanobis (f c lc : vec) (d : nat) :
  length f = d → length c = d → length lc = d →
  sum (zip_with Rmult (zip_with Rminus f c)
         (zip_with Rdiv (zip_with Rminus f c) (exp <$> lc)))
  = big_sum d (λ j, (f !!! j - c !!! j) ^ 2 / exp (lc !!! j)).
Proof.
  revert c lc d. induction f as [|x f IH]; intros [|y c] [|z lc] d Hf Hc Hl;
    cbn [length] in *; simplify_eq; [done|].
  cbn -[sum]. rewrite sum_cons, (IH c lc (length f)) by (done || lia).
  unfold Rdiv. f_equal. ring.
Qed.

Lemma sum_squares (f c : vec) (d : nat) :
  length f = d → length c = d →
  sum (zip_with Rmult (zip_with Rminus f c) (zip_with Rminus f c))
  = big_sum d (λ j, (f !!! j - c !!! j) ^ 2).
Proof.
  revert c d. induction f as [|x f IH]; intros [|y c] d Hf Hc;
    cbn [length] in *; simplify_eq; [done|].
  cbn -[sum]. rewrite sum_cons, (IH c (length f)) by (done || lia).
  f_equal. ring.
Qed.

Lemma sum_pow2 (f c : vec) (d : nat) :
  length f = d → length c = d →
  sum (map1 (λ x, x ^ 2) (zip_with Rminus f c))
  = big_sum d (λ j, (f !!! j - c !!! j) ^ 2).
Proof.
  revert c d. induction f as [|x f IH]; intros [|y c] d Hf Hc;
    cbn [length] in *; simplify_eq; [done|].
  unfold map1 in *. cbn -[sum pow].
  by rewrite sum_cons, (IH c (length f)) by (done || lia).
Qed.

Lemma LGMLoss_slog_entry (self : LGMLoss.t) (n i k : nat) (lc : vec) :
  (i < n)%nat → LGMLoss.log_covs self !! k = Some lc →
  entry (replicate n (sum_last2 (LGMLoss.log_covs self))) i k
    = Some (big_sum (length lc) (λ d, lc !!! d)).
Proof.
  intros Hi Hlc. apply entry_replicate; [done|].
  unfold sum_last2. by rewrite list_lookup_fmap, Hlc, <- sum_big_sum.
Qed.

End entries.

(** * The claims *)

Section C1.
Import Torch.

(** C1: on a batch of shape (N, feat_dim) with N valid labels, for each
    sample i and class k, the distance tensor of [LGMLoss.forward] has
    dist[i,k] = sum_d (feat[i,d] - centers[k,d])^2 / exp(log_covs[k,d]),
    and the logits of every call that returns have
    logits[i,k] = -0.5 * (sum_d log_covs[k,d] + dist[i,k]).  The call
    returns unless the module has a single class and the batch is not of
    one sample, where the selection of line 52 raises after both tensors
    have been computed. *)
Theorem C1_forward_dist_logits (self : LGMLoss.t) (feat : mat)
    (label : list Z) (n i k : nat) :
  LGMLoss_wf self →
  shape feat n (LGMLoss.feat_dim self) →
  length label = n →
  valid_labels (LGMLoss.num_classes self) label →
  (i < n)%nat → (k < LGMLoss.num_classes self)%nat →
  let dik := big_sum (LGMLoss.feat_dim self)
               (λ d, (get feat i d - get (LGMLoss.centers self) k d) ^ 2
                     / exp (get (LGMLoss.log_covs self) k d)) in
  (∃ dist, LGMLoss.dist self feat = Ok dist ∧ entry dist i k = Some dik) ∧
  (∀ logits margin_logits likelihood,
     LGMLoss.forward self feat label = Ok (logits, margin_logits, likelihood) →
     entry logits i k =
       Some (-0.5 * (big_sum (LGMLoss.feat_dim self)
                       (λ d, get (LGMLoss.log_covs self) k d) + dik))) ∧
  ((LGMLoss.num_classes self = 1%nat → n = 1%nat) →
   ∃ logits margin_logits likelihood,
     LGMLoss.forward self feat label = Ok (logits, margin_logits, likelihood)).
Proof.
  intros Hwf Hf Hn Hv Hi Hk. cbv zeta.
  rewrite (LGMLoss_forward_valid self feat label n) by done.
  rewrite (LGMLoss_dist_Ok self feat n) by done.
  destruct (shape_lookup _ _ _ i Hf Hi) as (f & Hfi & Hlf).
  destruct (shape_lookup _ _ _ k (proj1 Hwf) Hk) as (c & Hck & Hlc).
  destruct (shape_lookup _ _ _ k (proj2 Hwf) Hk) as (lc & Hlk & Hll).
  unfold get.
  rewrite (list_lookup_total_correct _ _ _ Hfi),
    (list_lookup_total_correct _ _ _ Hck),
    (list_lookup_total_correct _ _ _ Hlk).
  assert (Hd : entry (LGMLoss_dist_cf self feat) i k =
            Some (big_sum (LGMLoss.feat_dim self)
                    (λ d, (f !!! d - c !!! d) ^ 2 / exp (lc !!! d)))).
  { rewrite (LGMLoss_dist_cf_entry self feat i k f c lc) by done.
    by rewrite (sum_mahalanobis f c lc (LGMLoss.feat_dim self)). }
  split; [by eexists|]. split.
  - intros logits ml lkd Hfw.
    assert (logits = LGMLoss_logits_cf self feat) as ->
      by (repeat destruct (decide _); congruence).
    unfold LGMLoss_logits_cf. apply entry_map2.
    apply entry_zip_with; [|done].
    rewrite <- Hll. apply LGMLoss_slog_entry; [|done].
    destruct Hf as [-> _]. done.
  - intros H1. rewrite !decide_False by lia. by do 3 eexists.
Qed.

(** A one-sample batch at distance 1 from the first of two centers. *)
Lemma C1_forward_dist_logits_witness :
  let self := LGMLoss.init 2 2 0 [[0; 0]; [10; 10]] in
  let dik := big_sum 2
               (λ d, (get [[1; 0]] 0 d - get [[0; 0]; [10; 10]] 0 d) ^ 2
                     / exp (get [[0; 0]; [0; 0]] 0 d)) in
  (∃ dist, LGMLoss.dist self [[1; 0]] = Ok dist ∧ entry dist 0 0 = Some dik) ∧
  (∀ logits margin_logits likelihood,
     LGMLoss.forward self [[1; 0]] [0%Z] = Ok (logits, margin_logits, likelihood) →
     entry logits 0 0 =
       Some (-0.5 * (big_sum 2 (λ d, get [[0; 0]; [0; 0]] 0 d) + dik))) ∧
  ∃ logits margin_logits likelihood,
    LGMLoss.forward self [[1; 0]] [0%Z] = Ok (logits, margin_logits, likelihood).
Proof.
  destruct (C1_forward_dist_logits (LGMLoss.init 2 2 0 [[0; 0]; [10; 10]])
              [[1; 0]] [0%Z] 1 0 0) as (Hd & Hl & Hr).
  - split; (split; [reflexivity|repeat constructor]).
  - split; [reflexivity|repeat constructor].
  - reflexivity.
  - repeat constructor; simpl; lia.
  - lia.
  - simpl; lia.
  - split; [exact Hd|]. split; [exact Hl|]. apply Hr. reflexivity.
Defined.

End C1.

(** ** Both loss modules at once *)
Section variants.
Import Torch.

Lemma lgm_centers_shape (l : lgm_module) :
  lgm_wf l → shape (lgm_centers l) (lgm_num_classes l) (lgm_feat_dim l).
Proof. destruct l; [by intros [? ?]|done]. Qed.

Lemma lgm_dist_Ok (l : lgm_module) (feat : mat) (n : nat) :
  lgm_wf l → shape feat n (lgm_feat_dim l) →
  lgm_dist l feat = Ok (lgm_dist_cf l feat).
Proof.
  destruct l; [apply LGMLoss_dist_Ok|apply LGMLoss_v0_dist_Ok].
Qed.

Lemma lgm_dist_cf_shape (l : lgm_module) (feat : mat) (n : nat) :
  lgm_wf l → shape feat n (lgm_feat_dim l) →
  shape (lgm_dist_cf l feat) n (lgm_num_classes l).
Proof.
  destruct l; [apply LGMLoss_dist_cf_shape|apply LGMLoss_v0_dist_cf_shape].
Qed.

Lemma lgm_margin_dist_Ok (l : lgm_module) (n : nat) (dist : mat) (label : list Z) :
  shape dist n (lgm_num_classes l) → length label = n →
  valid_labels (lgm_num_classes l) label →
  lgm_margin_dist l n dist label
    = Ok (margin_cf n (lgm_num_classes l) dist label (lgm_alpha l)).
Proof. destruct l; apply margin_body_Ok. Qed.

Lemma lgm_forward_valid (l : lgm_module) (feat : mat) (label : list Z) (n : nat) :
  lgm_wf l → shape feat n (lgm_feat_dim l) →
  length label = n → valid_labels (lgm_num_classes l) label →
  lgm_forward l feat label =
    if decide (one_class_mismatch l n) then Err IndexToScalar
    else if decide (n = 0%nat) then Err ZeroDivision
    else Ok (lgm_logits_cf l feat, lgm_margin_logits_cf l feat label,
             lgm_likelihood_cf l feat label).
Proof.
  destruct l as [self|self]; intros Hwf Hf Hn Hv; cbn [lgm_forward].
  - rewrite (LGMLoss_forward_valid self feat label n) by done.
    cbn [one_class_mismatch]. by repeat destruct (decide _).
  - rewrite (LGMLoss_v0_forward_valid self feat label n) by done.
    cbn [one_class_mismatch]. by rewrite (decide_False (P:=False)) by tauto.
Qed.

(** On a non-empty batch that the selection of line 52 accepts, the call
    returns the closed forms. *)
Lemma lgm_forward_Ok (l : lgm_module) (feat : mat) (label : list Z) (n : nat) :
  lgm_wf l → shape feat n (lgm_feat_dim l) →
  length label = n → valid_labels (lgm_num_classes l) label →
  ¬ one_class_mismatch l n → n ≠ 0%nat →
  lgm_forward l feat label =
    Ok (lgm_logits_cf l feat, lgm_margin_logits_cf l feat label,
        lgm_likelihood_cf l feat label).
Proof.
  intros Hwf Hf Hn Hv Hm H0.
  rewrite (lgm_forward_valid l feat label n) by done.
  by rewrite !decide_False by done.
Qed.

(** Whatever the call returns on a well-shaped batch is the closed forms. *)
Lemma lgm_forward_returned (l : lgm_module) (feat : mat) (label : list Z)
    (n : nat) r :
  lgm_wf l → shape feat n (lgm_feat_dim l) →
  length label = n → valid_labels (lgm_num_classes l) label →
  lgm_forward l feat label = Ok r →
  r = (lgm_logits_cf l feat, lgm_margin_logits_cf l feat label,
       lgm_likelihood_cf l feat label).
Proof.
  intros Hwf Hf Hn Hv. rewrite (lgm_forward_valid l feat label n) by done.
  repeat destruct (decide _); congruence.
Qed.

Lemma lgm_forward_Err (l : lgm_module) (feat : mat) (label : list Z) (n : nat) :
  lgm_wf l → shape feat n (lgm_feat_dim l) →
  length label = n → ¬ valid_labels (lgm_num_classes l) label →
  lgm_forward l feat label = Err Undefined.
Proof.
  destruct l; [apply LGMLoss_forward_Err|apply LGMLoss_v0_forward_Err].
Qed.

(** Two distinct classes rule the one-class case out. *)
Lemma two_classes_no_mismatch (l : lgm_module) (n k : nat) (li : Z) :
  (k < lgm_num_classes l)%nat →
  (0 ≤ li < Z.of_nat (lgm_num_classes l))%Z →
  Z.of_nat k ≠ li → ¬ one_class_mismatch l n.
Proof. destruct l; cbn; [lia|tauto]. Qed.

Lemma valid_labels_lookup (c : nat) (label : list Z) (i : nat) (li : Z) :
  valid_labels c label → label !! i = Some li → (0 ≤ li < Z.of_nat c)%Z.
Proof.
  unfold valid_labels. rewrite Forall_lookup. intros Hv Hli.
  exact (Hv _ _ Hli).
Qed.

(** Entries of the closed forms, in terms of the distance entry. *)
Lemma lgm_entries (l : lgm_module) (feat : mat) (label : list Z) (n i k : nat)
    (li : Z) :
  lgm_wf l → shape feat n (lgm_feat_dim l) →
  length label = n → valid_labels (lgm_num_classes l) label →
  label !! i = Some li → (k < lgm_num_classes l)%nat →
  ∃ x,
    entry (lgm_dist_cf l feat) i k = Some x ∧
    entry (margin_cf n (lgm_num_classes l) (lgm_dist_cf l feat) label
             (lgm_alpha l)) i k = Some (x * weight (lgm_alpha l) k li) ∧
    entry (lgm_logits_cf l feat) i k = Some (lgm_logit l k x) ∧
    entry (lgm_margin_logits_cf l feat label) i k
      = Some (lgm_logit l k (x * weight (lgm_alpha l) k li)).
Proof.
  intros Hwf Hf Hn Hv Hli Hk.
  assert (Hi : (i < n)%nat) by (apply lookup_lt_Some in Hli; lia).
  assert (Hl0 : (0 ≤ li)%Z).
  { unfold valid_labels in Hv. rewrite Forall_lookup in Hv.
    specialize (Hv _ _ Hli). cbn in Hv. lia. }
  pose proof (lgm_dist_cf_shape l feat n Hwf Hf) as Hds.
  destruct (entry_shape _ _ _ i k Hds Hi Hk) as [x Hx].
  exists x. split; [done|].
  assert (Hm : entry (margin_cf n (lgm_num_classes l) (lgm_dist_cf l feat)
                        label (lgm_alpha l)) i k
               = Some (x * weight (lgm_alpha l) k li))
    by (by apply margin_cf_entry).
  split; [done|].
  assert (n = length feat) as -> by (by destruct Hf).
  destruct l as [self|self]; cbn [lgm_logits_cf lgm_margin_logits_cf lgm_logit
    lgm_dist_cf lgm_num_classes lgm_alpha lgm_wf lgm_feat_dim] in *.
  - destruct (shape_lookup _ _ _ k (proj2 Hwf) Hk) as (lc & Hlk & Hll).
    unfold get. rewrite (list_lookup_total_correct _ _ _ Hlk), <- Hll.
    pose proof (LGMLoss_slog_entry self (length feat) i k lc Hi Hlk) as Hs.
    split; apply entry_map2, entry_zip_with; done.
  - split; apply entry_map2; done.
Qed.

End variants.

Section C2.
Import Torch.

(** C2: in both [forward]s the distance that enters margin_logits is
    dist[i,k] times 1 + alpha when k is the label of sample i and times 1
    otherwise, and in every call that returns margin_logits[i,k] is the
    logit formula applied to that weighted distance.  The call returns
    unless it is [LGMLoss.forward] with a single class and a batch that is
    not of one sample: line 52 raises there, after the weighted distance
    has been computed. *)
Theorem C2_margin_weighting (l : lgm_module) (feat : mat) (label : list Z)
    (n i k : nat) (li : Z) :
  lgm_wf l →
  shape feat n (lgm_feat_dim l) →
  length label = n →
  valid_labels (lgm_num_classes l) label →
  label !! i = Some li → (k < lgm_num_classes l)%nat →
  let w := if decide (Z.of_nat k = li) then 1 + lgm_alpha l else 1 in
  ∃ x,
    (∃ dist margin_dist,
       lgm_dist l feat = Ok dist ∧
       lgm_margin_dist l n dist label = Ok margin_dist ∧
       entry dist i k = Some x ∧
       entry margin_dist i k = Some (x * w)) ∧
    (∀ logits margin_logits likelihood,
       lgm_forward l feat label = Ok (logits, margin_logits, likelihood) →
       entry logits i k = Some (lgm_logit l k x) ∧
       entry margin_logits i k = Some (lgm_logit l k (x * w))) ∧
    (¬ one_class_mismatch l n →
     ∃ logits margin_logits likelihood,
       lgm_forward l feat label = Ok (logits, margin_logits, likelihood)).
Proof.
  intros Hwf Hf Hn Hv Hli Hk. cbv zeta.
  assert (Hi : (i < n)%nat) by (apply lookup_lt_Some in Hli; lia).
  destruct (lgm_entries l feat label n i k li) as (x & Hx & Hm & Hlg & Hml);
    try done.
  assert (Hw : weight (lgm_alpha l) k li
               = if decide (Z.of_nat k = li) then 1 + lgm_alpha l else 1).
  { unfold weight. destruct (decide _); lra. }
  rewrite <- Hw. exists x. split; [|split].
  - exists (lgm_dist_cf l feat),
      (margin_cf n (lgm_num_classes l) (lgm_dist_cf l feat) label (lgm_alpha l)).
    split; [by eapply lgm_dist_Ok|].
    split; [apply lgm_margin_dist_Ok; [by eapply lgm_dist_cf_shape|done..]|].
    done.
  - intros logits ml lkd Hfw.
    apply (lgm_forward_returned l feat label n) in Hfw; [|done..].
    by simplify_eq.
  - intros Hm1. rewrite (lgm_forward_Ok l feat label n) by (done || lia).
    by do 3 eexists.
Qed.

(** Two samples of a two-class identity-covariance module with margin
    0.5: entry (1, 1) is the true-class entry of the second sample. *)
Lemma C2_margin_weighting_witness :
  let l := Identity (LGMLoss_v0.mk 2 2 0.5 [[0; 0]; [10; 10]]) in
  let w := if decide (Z.of_nat 1 = 1%Z) then 1 + lgm_alpha l else 1 in
  ∃ x,
    (∃ dist margin_dist,
       lgm_dist l [[1; 0]; [9; 9]] = Ok dist ∧
       lgm_margin_dist l 2 dist [0%Z; 1%Z] = Ok margin_dist ∧
       entry dist 1 1 = Some x ∧
       entry margin_dist 1 1 = Some (x * w)) ∧
    (∀ logits margin_logits likelihood,
       lgm_forward l [[1; 0]; [9; 9]] [0%Z; 1%Z]
         = Ok (logits, margin_logits, likelihood) →
       entry logits 1 1 = Some (lgm_logit l 1 x) ∧
       entry margin_logits 1 1 = Some (lgm_logit l 1 (x * w))) ∧
    ∃ logits margin_logits likelihood,
      lgm_forward l [[1; 0]; [9; 9]] [0%Z; 1%Z]
        = Ok (logits, margin_logits, likelihood).
Proof.
  destruct (C2_margin_weighting
              (Identity (LGMLoss_v0.mk 2 2 0.5 [[0; 0]; [10; 10]]))
              [[1; 0]; [9; 9]] [0%Z; 1%Z] 2 1 1 1%Z)
    as (x & Hs & Hr & Hex).
  - split; [reflexivity|repeat constructor].
  - split; [reflexivity|repeat constructor].
  - reflexivity.
  - repeat constructor; simpl; lia.
  - reflexivity.
  - simpl; lia.
  - exists x. split; [exact Hs|]. split; [exact Hr|].
    apply Hex. simpl. tauto.
Defined.

End C2.

Section C10.
Import Torch.

(** C10: for every sample i and every class k other than the label of
    sample i, margin_logits[i,k] equals logits[i,k], whatever alpha is;
    both [forward]s. *)
Theorem C10_margin_only_true_class (l : lgm_module) (feat : mat) (label : list Z)
    (n i k : nat) (li : Z) :
  lgm_wf l →
  shape feat n (lgm_feat_dim l) →
  length label = n →
  valid_labels (lgm_num_classes l) label →
  label !! i = Some li → (k < lgm_num_classes l)%nat →
  Z.of_nat k ≠ li →
  ∃ logits margin_logits likelihood y,
    lgm_forward l feat label = Ok (logits, margin_logits, likelihood) ∧
    entry logits i k = Some y ∧
    entry margin_logits i k = Some y.
Proof.
  intros Hwf Hf Hn Hv Hli Hk Hne.
  assert (Hi : (i < n)%nat) by (apply lookup_lt_Some in Hli; lia).
  destruct (lgm_entries l feat label n i k li) as (x & Hx & Hm & Hlg & Hml);
    try done.
  rewrite (lgm_forward_Ok l feat label n)
    by (done || lia || eauto using two_classes_no_mismatch, valid_labels_lookup).
  do 3 eexists. exists (lgm_logit l k x).
  split; [done|]. split; [done|].
  rewrite Hml. do 2 f_equal. unfold weight.
  rewrite decide_False by done. lra.
Qed.

(** Class 0 of a sample labelled 1, with a large margin. *)
Lemma C10_margin_only_true_class_witness :
  ∃ logits margin_logits likelihood y,
    lgm_forward (Full (LGMLoss.init 2 2 3 [[0; 0]; [10; 10]]))
      [[1; 0]; [9; 9]] [0%Z; 1%Z] = Ok (logits, margin_logits, likelihood) ∧
    entry logits 1 0 = Some y ∧
    entry margin_logits 1 0 = Some y.
Proof.
  apply (C10_margin_only_true_class
           (Full (LGMLoss.init 2 2 3 [[0; 0]; [10; 10]]))
           [[1; 0]; [9; 9]] [0%Z; 1%Z] 2 1 0 1%Z).
  - split; (split; [reflexivity|repeat constructor]).
  - split; [reflexivity|repeat constructor].
  - reflexivity.
  - repeat constructor; simpl; lia.
  - reflexivity.
  - simpl; lia.
  - simpl; lia.
Defined.

End C10.

Section C8.
Import Torch.

Lemma onehot_zero (n c : nat) (label : list Z) :
  length label = n → onehot n c label 0 = zeros n c.
Proof.
  intros Hn. unfold onehot, zeros. subst n.
  induction label as [|l label IH]; [done|].
  cbn [length replicate zip_with]. by rewrite insert_replicate, IH.
Qed.

Lemma zip_with_mult_one (r : vec) (c : nat) :
  length r = c → zip_with Rmult r (replicate c (0 + 1.0)) = r.
Proof.
  intros <-. induction r as [|x r IH]; [done|].
  cbn [length replicate zip_with]. rewrite IH. f_equal. lra.
Qed.

Lemma margin_cf_zero (n c : nat) (dist : mat) (label : list Z) :
  shape dist n c → length label = n → margin_cf n c dist label 0 = dist.
Proof.
  intros [Hn Hc] Hl. unfold margin_cf. rewrite onehot_zero by done.
  unfold zeros, map2, map1. rewrite !fmap_replicate. subst n. clear Hl.
  induction Hc as [|r dist Hr _ IH]; [done|].
  cbn [length replicate zip_with]. by rewrite zip_with_mult_one, IH.
Qed.

(** C8: with alpha = 0 the margin_logits returned by either [forward] are
    the logits returned by the same call, for every feature batch and
    valid label batch.  A call on a non-empty batch returns, unless it is
    [LGMLoss.forward] with a single class and a batch that is not of one
    sample (line 52 raises there). *)
Theorem C8_zero_alpha (l : lgm_module) (feat : mat) (label : list Z) (n : nat) :
  lgm_wf l →
  shape feat n (lgm_feat_dim l) →
  length label = n →
  valid_labels (lgm_num_classes l) label →
  lgm_alpha l = 0 →
  (∀ logits margin_logits likelihood,
      lgm_forward l feat label = Ok (logits, margin_logits, likelihood) →
      margin_logits = logits) ∧
  (n ≠ 0%nat → ¬ one_class_mismatch l n →
   ∃ logits likelihood,
      lgm_forward l feat label = Ok (logits, logits, likelihood)).
Proof.
  intros Hwf Hf Hn Hv Ha.
  rewrite (lgm_forward_valid l feat label n) by done.
  assert (Heq : lgm_margin_logits_cf l feat label = lgm_logits_cf l feat).
  { pose proof (lgm_dist_cf_shape l feat n Hwf Hf) as Hds.
    assert (n = length feat) as -> by (by destruct Hf).
    destruct l as [self|self]; cbn in Ha, Hds |- *;
      unfold LGMLoss_margin_logits_cf, LGMLoss_logits_cf,
        LGMLoss_v0_margin_logits_cf, LGMLoss_v0_logits_cf;
      by rewrite Ha, margin_cf_zero. }
  rewrite Heq. split.
  - intros logits ml lkd. repeat destruct (decide _); congruence.
  - intros Hn0 Hm. rewrite !decide_False by done. eauto.
Qed.

(** A two-sample batch through the full module with alpha = 0. *)
Lemma C8_zero_alpha_witness :
  let l := Full (LGMLoss.init 2 2 0 [[0; 0]; [10; 10]]) in
  (∀ logits margin_logits likelihood,
      lgm_forward l [[1; 0]; [9; 9]] [0%Z; 1%Z]
        = Ok (logits, margin_logits, likelihood) →
      margin_logits = logits) ∧
  ∃ logits likelihood,
    lgm_forward l [[1; 0]; [9; 9]] [0%Z; 1%Z] = Ok (logits, logits, likelihood).
Proof.
  destruct (C8_zero_alpha (Full (LGMLoss.init 2 2 0 [[0; 0]; [10; 10]]))
              [[1; 0]; [9; 9]] [0%Z; 1%Z] 2) as [Heq Hr].
  - split; (split; [reflexivity|repeat constructor]).
  - split; [reflexivity|repeat constructor].
  - reflexivity.
  - repeat constructor; simpl; lia.
  - reflexivity.
  - split; [exact Heq|]. apply Hr; simpl; lia.
Defined.

End C8.

Section C7.
Import Torch.

Lemma mapM_Ok_inv {A B} (f : A → result B) (l : list A) (r : list B) :
  mapM f l = Ok r → Forall2 (λ x y, f x = Ok y) l r.
Proof.
  revert r. induction l as [|a l IH]; intros r H; cbn in H.
  - unfold mret, result_ret in H. simplify_eq. constructor.
  - destruct (f a) as [b|e] eqn:Hb; [|done]. cbn in H.
    destruct (mapM f l) as [r'|e] eqn:Hr; [|done]. cbn in H.
    unfold mret, result_ret in H. simplify_eq.
    constructor; [done|]. by apply IH.
Qed.

Lemma mapM_pure {A B} (g : A → B) (l : list A) :
  mapM (λ x, Ok (g x)) l = Ok (g <$> l).
Proof. apply mapM_Ok, Forall_forall. done. Qed.

Lemma zip_with_fst {A B} (x : list A) (y : list B) :
  length x = length y → zip_with (λ a _, a) x y = x.
Proof.
  revert y. induction x as [|a x IH]; intros [|b y] H; simplify_eq/=; [done|].
  by rewrite IH.
Qed.

Lemma bcast_fst {A B} (f : A → B → result A) (x : list A) (y : list B) :
  Forall2 (λ a b, f a b = Ok a) x y → bcast f x y = Ok x.
Proof.
  intros H. rewrite (bcast_Ok f (λ a _, a)) by done.
  by rewrite zip_with_fst by eapply Forall2_length, H.
Qed.

Lemma length_list_fmap {A B} (g : A → B) (l : list A) :
  length (list_fmap A B g l) = length l.
Proof. apply length_fmap. Qed.

(** A row that comes out of a broadcast against a row of length [d] has
    length [d], unless [d] is 1. *)
Lemma ew1_length op (f c r : vec) :
  ew1 op f c = Ok r → length r = length c ∨ length c = 1%nat.
Proof.
  unfold ew1, bcast. intros H.
  destruct f as [|a [|a' f]], c as [|b [|b' c]];
    rewrite ?mapM_pure in H;
    try (case_decide as Hlen; [|done]; unfold zipM in H;
         rewrite mapM_pure in H);
    injection H as <-; cbn [length] in *;
    rewrite ?length_list_fmap, ?length_zip_with;
    first [left; lia|by right].
Qed.

Lemma zip_with_div_exp0 (r lc : vec) :
  Forall (λ x, x = 0) lc → length r = length lc →
  zip_with Rdiv r (map1 exp lc) = r.
Proof.
  intros Hz. revert r. unfold map1.
  induction Hz as [|z lc -> _ IH]; intros [|x r] H; simplify_eq/=; [done..|].
  rewrite IH by done. f_equal. rewrite exp_0. lra.
Qed.

Lemma ew1_div_exp0 (r lc : vec) :
  Forall (λ x, x = 0) lc →
  length r = length lc ∨ length lc = 1%nat →
  ew1 Rdiv r (map1 exp lc) = Ok r.
Proof.
  intros Hz [Hlen|H1].
  - rewrite ew1_same by (unfold map1; by rewrite length_fmap).
    by rewrite zip_with_div_exp0.
  - destruct lc as [|z [|z' lc]]; simplify_eq/=.
    apply Forall_cons in Hz as [-> _].
    unfold ew1. rewrite bcast_r1, mapM_pure. f_equal.
    rewrite <- (list_fmap_id r) at 2. apply list_fmap_ext.
    intros _ x _. cbn. rewrite exp_0. lra.
Qed.

(** Dividing the differences by [exp] of all-zero log-variances leaves
    them as they are, whatever the shape of the features. *)
Lemma ew3_div_exp0 (feat centers log_covs : mat) (diff : ten3) (c d : nat) :
  shape centers c d → shape log_covs c d →
  Forall (Forall (λ x, x = 0)) log_covs →
  ew3 Rminus (unsqueeze1 feat) (unsqueeze0 centers) = Ok diff →
  ew3 Rdiv diff (repeat0 (length feat) (map3 exp (unsqueeze0 log_covs)))
    = Ok diff.
Proof.
  intros [Hc Hcd] [Hl Hld] Hz Hdiff.
  rewrite map3_unsqueeze0, repeat0_unsqueeze0.
  unfold ew3, unsqueeze0, unsqueeze1 in Hdiff.
  rewrite bcast_r1, mapM_fmap in Hdiff. apply mapM_Ok_inv in Hdiff.
  unfold ew3. apply bcast_fst.
  apply Forall2_same_length_lookup_2.
  { rewrite length_replicate. symmetry. eapply Forall2_length, Hdiff. }
  intros i m covs Hm Hcovs. apply lookup_replicate in Hcovs as [-> Hi].
  destruct (Forall2_lookup_r _ _ _ _ _ Hdiff Hm) as (f & Hf & Hfm).
  cbn in Hfm. apply mapM_Ok_inv in Hfm.
  unfold ew2. apply bcast_fst.
  apply Forall2_same_length_lookup_2.
  { unfold map2. rewrite length_fmap, Hl, <- Hc. symmetry.
    eapply Forall2_length, Hfm. }
  intros k r cov Hr Hcov. unfold map2 in Hcov.
  rewrite list_lookup_fmap in Hcov.
  destruct (log_covs !! k) as [lc|] eqn:Hlc; [|done]. simplify_eq/=.
  destruct (Forall2_lookup_r _ _ _ _ _ Hfm Hr) as (ck & Hck & Hfr).
  apply ew1_length in Hfr.
  rewrite Forall_lookup in Hcd. rewrite Forall_lookup in Hld.
  rewrite Forall_lookup in Hz.
  apply ew1_div_exp0; [by eapply Hz|].
  rewrite (Hld _ _ Hlc). rewrite (Hcd _ _ Hck) in Hfr. done.
Qed.

(** C7: when every entry of [log_covs] is 0, [LGMLoss.forward] computes
    the same dist tensor as [LGMLoss_v0.forward] with the same centers,
    for every feature batch. *)
Theorem C7_dist_identity_covariance (self : LGMLoss.t) (self0 : LGMLoss_v0.t)
    (feat : mat) :
  LGMLoss_wf self →
  LGMLoss_v0.centers self0 = LGMLoss.centers self →
  Forall (Forall (λ x, x = 0)) (LGMLoss.log_covs self) →
  LGMLoss.dist self feat = LGMLoss_v0.dist self0 feat.
Proof.
  intros [Hc Hl] Hsame Hz. unfold LGMLoss.dist, LGMLoss_v0.dist. cbv zeta.
  rewrite Hsame.
  destruct (ew3 Rminus (unsqueeze1 feat) (unsqueeze0 (LGMLoss.centers self)))
    as [diff|e] eqn:Hdiff; [|done].
  rewrite !bind_Ok.
  by rewrite (ew3_div_exp0 feat _ _ diff _ _ Hc Hl Hz Hdiff), bind_Ok.
Qed.

(** A freshly constructed module (log-variances at zero) against the
    identity-covariance module with the same centers. *)
Lemma C7_dist_identity_covariance_witness :
  LGMLoss.dist (LGMLoss.init 2 2 0.5 [[0; 0]; [10; 10]]) [[1; 0]; [9; 9]]
  = LGMLoss_v0.dist (LGMLoss_v0.mk 2 2 0.5 [[0; 0]; [10; 10]]) [[1; 0]; [9; 9]].
Proof.
  apply (C7_dist_identity_covariance
           (LGMLoss.init 2 2 0.5 [[0; 0]; [10; 10]])
           (LGMLoss_v0.mk 2 2 0.5 [[0; 0]; [10; 10]]) [[1; 0]; [9; 9]]).
  - split; (split; [reflexivity|repeat constructor]).
  - reflexivity.
  - repeat constructor.
Defined.

End C7.

Section C3.
Import Torch.

Lemma big_sum_plus (n : nat) (f g : nat → R) :
  big_sum n (λ i, f i + g i) = big_sum n f + big_sum n g.
Proof.
  revert f g. induction n as [|n IH]; intros f g; cbn; [lra|].
  rewrite IH. lra.
Qed.

Lemma big_sum_scale (n : nat) (a : R) (f : nat → R) :
  big_sum n (λ i, a * f i) = a * big_sum n f.
Proof.
  revert f. induction n as [|n IH]; intros f; cbn; [lra|].
  rewrite IH. lra.
Qed.

Lemma cdist_cf_big_sum (centers feat : mat) (label : list Z) (n c d : nat) :
  shape centers c d → shape feat n d → length label = n →
  valid_labels c label →
  cdist_cf centers feat label =
    big_sum n (λ i, big_sum d
      (λ j, (get feat i j - get centers (class_of label i) j) ^ 2)).
Proof.
  intros Hc Hf Hn Hv. unfold cdist_cf. rewrite sum_big_sum.
  assert (Hlen : length (sum_last2 (map2 (λ x, x ^ 2)
            (zip_with (zip_with Rminus) feat
               ((λ l, centers !!! Z.to_nat l) <$> label)))) = n).
  { unfold sum_last2, map2. rewrite !length_fmap, length_zip_with, length_fmap.
    destruct Hf as [-> _]. lia. }
  rewrite Hlen. apply big_sum_ext. intros i Hi.
  destruct (shape_lookup _ _ _ i Hf Hi) as (f & Hfi & Hlf).
  destruct (lookup_lt_is_Some_2 label i ltac:(lia)) as [l Hl].
  assert (Hvl : (0 ≤ l < Z.of_nat c)%Z).
  { unfold valid_labels in Hv. rewrite Forall_lookup in Hv. by apply (Hv i). }
  destruct (shape_lookup _ _ _ (Z.to_nat l) Hc ltac:(lia)) as (ck & Hck & Hlc).
  unfold class_of, get.
  rewrite (list_lookup_total_correct _ _ _ Hfi),
    (list_lookup_total_correct _ _ _ Hl),
    (list_lookup_total_correct _ _ _ Hck).
  rewrite <- (sum_pow2 f ck d) by done.
  apply list_lookup_total_correct.
  unfold sum_last2, map2.
  rewrite !list_lookup_fmap, lookup_zip_with, Hfi, list_lookup_fmap, Hl. cbn.
  by rewrite (list_lookup_total_correct _ _ _ Hck).
Qed.

Lemma reg_big_sum (log_covs : mat) (label : list Z) (n c d : nat) :
  shape log_covs c d → length label = n → valid_labels c label →
  sum ((λ l, sum_last2 log_covs !!! Z.to_nat l) <$> label) =
    big_sum n (λ i, big_sum d (λ j, get log_covs (class_of label i) j)).
Proof.
  intros Hc Hn Hv. rewrite sum_big_sum, length_fmap, Hn.
  apply big_sum_ext. intros i Hi.
  destruct (lookup_lt_is_Some_2 label i ltac:(lia)) as [l Hl].
  assert (Hvl : (0 ≤ l < Z.of_nat c)%Z).
  { unfold valid_labels in Hv. rewrite Forall_lookup in Hv. by apply (Hv i). }
  destruct (shape_lookup _ _ _ (Z.to_nat l) Hc ltac:(lia)) as (lc & Hlk & Hll).
  unfold class_of, get.
  rewrite (list_lookup_total_correct _ _ _ Hl),
    (list_lookup_total_correct _ _ _ Hlk).
  rewrite <- Hll, <- sum_big_sum.
  apply list_lookup_total_correct.
  rewrite list_lookup_fmap, Hl. cbn. f_equal.
  apply list_lookup_total_correct. unfold sum_last2.
  by rewrite list_lookup_fmap, Hlk.
Qed.

(** C3: on a batch of N samples with valid labels, the regularizer that
    [LGMLoss.forward] returns is the mean over the batch of
    0.5 * (squared Euclidean distance of the sample to the center of its
    class) + 0.5 * (sum of the log-variances of its class); a batch of one
    sample always returns, and its regularizer is that one term.  The
    call returns on every non-empty batch, unless the module has a single
    class and the batch is not of one sample (line 52 raises there). *)
Theorem C3_likelihood_regularizer (self : LGMLoss.t) (feat : mat)
    (label : list Z) (n : nat) :
  LGMLoss_wf self →
  shape feat n (LGMLoss.feat_dim self) →
  length label = n →
  valid_labels (LGMLoss.num_classes self) label →
  let term i :=
    0.5 * big_sum (LGMLoss.feat_dim self)
            (λ d, (get feat i d
                   - get (LGMLoss.centers self) (class_of label i) d) ^ 2)
    + 0.5 * big_sum (LGMLoss.feat_dim self)
              (λ d, get (LGMLoss.log_covs self) (class_of label i) d) in
  (∀ logits margin_logits likelihood,
     LGMLoss.forward self feat label = Ok (logits, margin_logits, likelihood) →
     likelihood = (1 / INR n) * big_sum n term) ∧
  (n ≠ 0%nat → (LGMLoss.num_classes self = 1%nat → n = 1%nat) →
   ∃ logits margin_logits likelihood,
     LGMLoss.forward self feat label = Ok (logits, margin_logits, likelihood)) ∧
  (n = 1%nat →
   ∃ logits margin_logits,
     LGMLoss.forward self feat label = Ok (logits, margin_logits, term 0%nat)).
Proof.
  intros Hwf Hf Hn Hv term.
  rewrite (LGMLoss_forward_valid self feat label n) by done.
  assert (Hlk : LGMLoss_likelihood_cf self feat label
                = (1 / INR n) * big_sum n term).
  { unfold LGMLoss_likelihood_cf, term.
    rewrite (cdist_cf_big_sum _ _ _ n (LGMLoss.num_classes self)
               (LGMLoss.feat_dim self)) by (done || apply Hwf).
    rewrite (reg_big_sum _ _ n (LGMLoss.num_classes self)
               (LGMLoss.feat_dim self)) by (done || apply Hwf).
    rewrite big_sum_plus, !big_sum_scale.
    destruct Hf as [-> _]. lra. }
  rewrite Hlk. split; [|split].
  - intros logits ml lkd. repeat destruct (decide _); congruence.
  - intros Hn0 H1. rewrite !decide_False by (done || lia). by do 3 eexists.
  - intros H1. rewrite !decide_False by lia. do 2 eexists. do 2 f_equal.
    rewrite H1. cbn. lra.
Qed.

(** One sample at (1, 2), labelled with the class centred at (0, 0). *)
Lemma C3_likelihood_regularizer_witness :
  let self := LGMLoss.init 2 2 0.5 [[0; 0]; [10; 10]] in
  let term i :=
    0.5 * big_sum 2
            (λ d, (get [[1; 2]] i d
                   - get [[0; 0]; [10; 10]] (class_of [0%Z] i) d) ^ 2)
    + 0.5 * big_sum 2 (λ d, get [[0; 0]; [0; 0]] (class_of [0%Z] i) d) in
  (∀ logits margin_logits likelihood,
     LGMLoss.forward self [[1; 2]] [0%Z] = Ok (logits, margin_logits, likelihood) →
     likelihood = (1 / INR 1) * big_sum 1 term) ∧
  (∃ logits margin_logits likelihood,
     LGMLoss.forward self [[1; 2]] [0%Z] = Ok (logits, margin_logits, likelihood)) ∧
  (∃ logits margin_logits,
     LGMLoss.forward self [[1; 2]] [0%Z] = Ok (logits, margin_logits, term 0%nat)).
Proof.
  destruct (C3_likelihood_regularizer
              (LGMLoss.init 2 2 0.5 [[0; 0]; [10; 10]]) [[1; 2]] [0%Z] 1)
    as (Hm & Hr & H1).
  - split; (split; [reflexivity|repeat constructor]).
  - split; [reflexivity|repeat constructor].
  - reflexivity.
  - repeat constructor; simpl; lia.
  - split; [exact Hm|]. split; [apply Hr; simpl; lia|]. apply H1. reflexivity.
Defined.

End C3.

(** C9 compares the regularizers of two calls whose float32 sums run over
    the samples in different orders.  Over the real numbers of this
    development the two sums are equal by commutativity alone, which says
    nothing about the rounded sums of the tensor library, so the claim has
    no statement here. *)

Section C6.
Import Torch.

(** C6, as stated, fails: a well-shaped one-sample batch with label 5 for a
    two-class module is not rejected by a validation step with
    [InvalidLabel]; the distance tensor is computed and the label goes
    unchecked into [scatter_] on the device, so the call differs from one
    that validates first.  On a batch that is also ill-shaped the shape
    error of the subtraction comes first. *)
Lemma C6_no_eager_validation :
  let self := LGMLoss.init 2 2 0 [[0; 0]; [10; 10]] in
  ¬ valid_labels 2 [5%Z] ∧
  forward_validated (Full self) [[0; 0]] [5%Z] = Err InvalidLabel ∧
  (∃ dist, LGMLoss.dist self [[0; 0]] = Ok dist) ∧
  LGMLoss.forward self [[0; 0]] [5%Z] = Err Undefined ∧
  LGMLoss.forward self [[0; 0]] [5%Z]
    ≠ forward_validated (Full self) [[0; 0]] [5%Z] ∧
  LGMLoss.forward self [[1; 2; 3]] [5%Z] = Err ShapeMismatch.
Proof.
  intros self.
  assert (Hwf : LGMLoss_wf self)
    by (split; (split; [reflexivity|repeat constructor])).
  assert (Hf : shape [[0; 0]] 1 (LGMLoss.feat_dim self))
    by (split; [reflexivity|repeat constructor]).
  assert (Hv : ¬ valid_labels 2 [5%Z]).
  { intros H. apply Forall_cons in H as [H _]. lia. }
  assert (He : LGMLoss.forward self [[0; 0]] [5%Z] = Err Undefined)
    by (by apply (LGMLoss_forward_Err self _ _ 1)).
  assert (Hs : forward_validated (Full self) [[0; 0]] [5%Z] = Err InvalidLabel).
  { unfold forward_validated, validate_labels.
    by rewrite decide_False by exact Hv. }
  split; [done|]. split; [done|].
  split; [eexists; by apply (LGMLoss_dist_Ok self _ 1)|].
  split; [done|]. split; [by rewrite He, Hs|].
  reflexivity.
Qed.

(** C6, amended: on a batch of shape (N, feat_dim) with N labels of which
    one is outside [0, num_classes), neither [forward] validates the
    labels and neither fails with [InvalidLabel]: the distance tensor is
    computed and the labels go unchecked into the [scatter_] indexing on
    the device, whose behaviour on such an index is undefined. *)
Theorem C6_invalid_label_unchecked (l : lgm_module) (feat : mat)
    (label : list Z) (n : nat) :
  lgm_wf l →
  shape feat n (lgm_feat_dim l) →
  length label = n →
  ¬ valid_labels (lgm_num_classes l) label →
  lgm_forward l feat label ≠ Err InvalidLabel ∧
  lgm_forward l feat label ≠ forward_validated l feat label ∧
  ∃ dist, lgm_dist l feat = Ok dist ∧
          lgm_margin_dist l n dist label = Err Undefined ∧
          lgm_forward l feat label = Err Undefined.
Proof.
  intros Hwf Hf Hn Hv.
  assert (He : lgm_forward l feat label = Err Undefined)
    by (by apply (lgm_forward_Err l _ _ n)).
  split; [by rewrite He|]. split.
  - unfold forward_validated, validate_labels.
    rewrite decide_False by exact Hv. by rewrite He.
  - exists (lgm_dist_cf l feat). split; [by eapply lgm_dist_Ok|].
    split; [|done]. destruct l; by apply margin_body_Err.
Qed.

(** Label 5 for a two-class module, in both variants' shape. *)
Lemma C6_invalid_label_unchecked_witness :
  let l := Identity (LGMLoss_v0.mk 2 2 0.5 [[0; 0]; [10; 10]]) in
  lgm_forward l [[1; 0]; [9; 9]] [0%Z; 5%Z] ≠ Err InvalidLabel ∧
  lgm_forward l [[1; 0]; [9; 9]] [0%Z; 5%Z]
    ≠ forward_validated l [[1; 0]; [9; 9]] [0%Z; 5%Z] ∧
  ∃ dist,
    lgm_dist l [[1; 0]; [9; 9]] = Ok dist ∧
    lgm_margin_dist l 2 dist [0%Z; 5%Z] = Err Undefined ∧
    lgm_forward l [[1; 0]; [9; 9]] [0%Z; 5%Z] = Err Undefined.
Proof.
  apply (C6_invalid_label_unchecked
           (Identity (LGMLoss_v0.mk 2 2 0.5 [[0; 0]; [10; 10]]))
           [[1; 0]; [9; 9]] [0%Z; 5%Z] 2).
  - split; [reflexivity|repeat constructor].
  - split; [reflexivity|repeat constructor].
  - reflexivity.
  - intros H. apply Forall_cons in H as [_ H].
    apply Forall_cons in H as [H _]. simpl in H. lia.
Defined.

End C6.

Section C4.
Import Torch LGMUtils.

Lemma getitem_Ok `{!Inhabited A} (t : list A) (index : list Z) :
  valid_labels (length t) index →
  getitem t index = Ok ((λ l, t !!! Z.to_nat l) <$> index).
Proof.
  intros Hv. apply mapM_Ok. eapply Forall_impl; [exact Hv|].
  intros l Hl. cbn in *.
  rewrite (decide_False (P := (l < 0)%Z)), decide_True by lia.
  destruct (valid_label_lookup t l Hl) as [x Hx].
  by rewrite Hx, (list_lookup_total_correct _ _ _ Hx).
Qed.

Lemma big_sum_zero (n : nat) (f : nat → R) :
  (∀ d, (d < n)%nat → f d = 0) → big_sum n f = 0.
Proof.
  revert f. induction n as [|n IH]; intros f H; cbn; [done|].
  rewrite (H 0%nat) by lia. rewrite IH; [lra|]. intros d Hd. apply H. lia.
Qed.

(** The squared 2-norm of a difference is its sum of squares. *)
Lemma norm2_sq (f c : vec) (d : nat) :
  length f = d → length c = d →
  norm2 (zip_with Rminus f c) ^ 2 = big_sum d (λ j, (f !!! j - c !!! j) ^ 2).
Proof.
  intros Hf Hc. unfold norm2.
  assert (Hs : sum (map1 (λ x, Rabs x ^ 2) (zip_with Rminus f c))
               = big_sum d (λ j, (f !!! j - c !!! j) ^ 2)).
  { rewrite <- (sum_pow2 f c d) by done. unfold map1. f_equal.
    apply list_fmap_ext. intros _ x _. apply pow2_abs. }
  rewrite Hs. apply pow2_sqrt, big_sum_nonneg. intros j _. apply pow2_ge_0.
Qed.

Lemma get_likelihood_Ok {X} (m : model X) (claimed_class : list Z) (x : X)
    (n : nat) :
  lgm_wf (lgm m) →
  shape (net m x) n (lgm_feat_dim (lgm m)) →
  length claimed_class = n →
  valid_labels (lgm_num_classes (lgm m)) claimed_class →
  get_likelihood m claimed_class x
    = Ok (likelihood_cf (lgm_centers (lgm m)) (net m x) claimed_class).
Proof.
  intros Hwf Hf Hn Hv. apply lgm_centers_shape in Hwf.
  unfold get_likelihood. cbv zeta.
  rewrite getitem_Ok, bind_Ok by (by destruct Hwf as [-> _]).
  rewrite ew2_same, bind_Ok by (eapply select_rows_Forall2; eauto).
  done.
Qed.

Lemma likelihood_cf_lookup (centers feats : mat) (claimed_class : list Z)
    (n c d i : nat) :
  shape centers c d → shape feats n d → length claimed_class = n →
  valid_labels c claimed_class → (i < n)%nat →
  likelihood_cf centers feats claimed_class !! i =
    Some (exp (-0.5 * big_sum d
      (λ j, (get feats i j - get centers (class_of claimed_class i) j) ^ 2))).
Proof.
  intros Hc Hf Hn Hv Hi.
  destruct (shape_lookup _ _ _ i Hf Hi) as (f & Hfi & Hlf).
  destruct (lookup_lt_is_Some_2 claimed_class i ltac:(lia)) as [l Hl].
  assert (Hvl : (0 ≤ l < Z.of_nat c)%Z).
  { unfold valid_labels in Hv. rewrite Forall_lookup in Hv. by apply (Hv i). }
  destruct (shape_lookup _ _ _ (Z.to_nat l) Hc ltac:(lia)) as (ck & Hck & Hlc).
  unfold likelihood_cf, class_of, get.
  rewrite (list_lookup_total_correct _ _ _ Hfi),
    (list_lookup_total_correct _ _ _ Hl),
    (list_lookup_total_correct _ _ _ Hck).
  rewrite list_lookup_fmap, lookup_zip_with, Hfi, list_lookup_fmap, Hl.
  cbn -[norm2 pow]. rewrite (list_lookup_total_correct _ _ _ Hck).
  by rewrite (norm2_sq f ck d).
Qed.



End C4.

Section C5.
Import Torch LGMUtils.

Lemma first_max_snoc_lt (pre : vec) (bi : nat) (x : R) :
  first_max pre bi → pre !!! bi < x → first_max (pre ++ [x]) (length pre).
Proof.
  intros (Hb & Hmax & Hfirst) Hlt.
  assert (Hx : (pre ++ [x]) !!! length pre = x).
  { rewrite lookup_total_app_r by lia. by rewrite Nat.sub_diag. }
  split; [rewrite length_app; cbn; lia|]. rewrite Hx. split.
  - intros j Hj. rewrite length_app in Hj. cbn in Hj.
    destruct (decide (j = length pre)) as [->|Hne]; [rewrite Hx; lra|].
    rewrite lookup_total_app_l by lia.
    specialize (Hmax j ltac:(lia)). lra.
  - intros j Hj. rewrite lookup_total_app_l by lia.
    specialize (Hmax j ltac:(lia)). lra.
Qed.

Lemma first_max_snoc_ge (pre : vec) (bi : nat) (x : R) :
  first_max pre bi → ¬ pre !!! bi < x → first_max (pre ++ [x]) bi.
Proof.
  intros (Hb & Hmax & Hfirst) Hge.
  split; [rewrite length_app; cbn; lia|].
  rewrite (lookup_total_app_l pre [x] bi) by lia. split.
  - intros j Hj. rewrite length_app in Hj. cbn in Hj.
    destruct (decide (j = length pre)) as [->|Hne].
    + rewrite lookup_total_app_r by lia. rewrite Nat.sub_diag. cbn. lra.
    + rewrite lookup_total_app_l by lia. apply Hmax. lia.
  - intros j Hj. rewrite lookup_total_app_l by lia. by apply Hfirst.
Qed.

Lemma max_from_first_max (pre v : vec) (bi : nat) :
  first_max pre bi →
  first_max (pre ++ v) (max_from (pre !!! bi) bi (length pre) v).
Proof.
  revert pre bi. induction v as [|x v IH]; intros pre bi Hfm.
  - by rewrite app_nil_r.
  - cbn [max_from]. rewrite cons_middle, app_assoc.
    destruct (Rlt_dec (pre !!! bi) x) as [Hlt|Hge].
    + pose proof (first_max_snoc_lt pre bi x Hfm Hlt) as Hfm'.
      specialize (IH (pre ++ [x]) (length pre) Hfm').
      rewrite lookup_total_app_r, Nat.sub_diag in IH by lia.
      rewrite length_app in IH. cbn in IH.
      by rewrite Nat.add_1_r in IH.
    + pose proof (first_max_snoc_ge pre bi x Hfm Hge) as Hfm'.
      specialize (IH (pre ++ [x]) bi Hfm').
      rewrite lookup_total_app_l in IH by apply Hfm.
      rewrite length_app in IH. cbn in IH.
      by rewrite Nat.add_1_r in IH.
Qed.

Lemma argmax_Ok (row : vec) :
  row ≠ [] → argmax row = Ok (argmax_d row) ∧ first_max row (argmax_d row).
Proof.
  destruct row as [|x v]; [done|]. intros _. split; [done|].
  apply (max_from_first_max [x] v 0%nat).
  split; [cbn; lia|]. split.
  - intros j Hj. cbn in Hj. replace j with 0%nat by lia. cbn. lra.
  - intros j Hj. lia.
Qed.

Lemma is_anomalous_Ok {X} (m : model X) (claimed_class : list Z) (x : X)
    (n : nat) :
  lgm_wf (lgm m) →
  shape (net m x) n (lgm_feat_dim (lgm m)) →
  length claimed_class = n →
  valid_labels (lgm_num_classes (lgm m)) claimed_class →
  n ≠ 0%nat → ¬ one_class_mismatch (lgm m) n →
  is_anomalous m claimed_class x
    = Ok (anomalous_cf (lgm_logits_cf (lgm m) (net m x)) claimed_class) ∧
  shape (lgm_logits_cf (lgm m) (net m x)) n (lgm_num_classes (lgm m)) ∧
  lgm_num_classes (lgm m) ≠ 0%nat.
Proof.
  intros Hwf Hf Hn Hv Hn0 Hm.
  assert (Hc0 : lgm_num_classes (lgm m) ≠ 0%nat).
  { destruct claimed_class as [|c cs]; [cbn in Hn; lia|].
    apply Forall_cons in Hv as [Hc _]. lia. }
  assert (Hls : shape (lgm_logits_cf (lgm m) (net m x)) n
                  (lgm_num_classes (lgm m))).
  { pose proof (lgm_dist_cf_shape _ _ n Hwf Hf) as Hds.
    destruct (lgm m) as [self|self]; cbn in *.
    - apply shape_map2, shape_zip_with; [|done].
      split; [rewrite length_replicate; by destruct Hf|].
      apply Forall_replicate. rewrite sum_last2_length.
      by destruct Hwf as [_ [-> _]].
    - by apply shape_map2. }
  split; [|done].
  unfold is_anomalous. cbv zeta.
  rewrite (lgm_forward_Ok _ _ _ n), bind_Ok by done.
  rewrite (mapM_Ok argmax argmax_d), bind_Ok.
  - apply bcast_Ok. apply Forall2_same_length_lookup_2; [|done].
    rewrite length_fmap. destruct Hls as [-> _]. done.
  - destruct Hls as [_ Hrows]. eapply Forall_impl; [exact Hrows|].
    intros row Hrow. cbn in Hrow. apply argmax_Ok.
    intros ->. cbn in Hrow. lia.
Qed.

(** Entry by entry: the flag is [false] exactly when the first maximal
    logit of the row is at the claimed class. *)
Lemma anomalous_cf_lookup (logits : mat) (claimed_class : list Z) i row c :
  logits !! i = Some row → claimed_class !! i = Some c →
  anomalous_cf logits claimed_class !! i
    = Some (negb (Z.of_nat (argmax_d row) =? c)%Z).
Proof.
  intros Hrow Hc. unfold anomalous_cf.
  by rewrite lookup_zip_with, list_lookup_fmap, Hrow, Hc.
Qed.

Lemma example_is_anomalous (l : lgm_module) (feat : mat) :
  lgm_wf l → shape feat 1 (lgm_feat_dim l) → lgm_num_classes l = 2%nat →
  is_anomalous (example_model l) [0%Z] feat
    = Ok (anomalous_cf (lgm_logits_cf l feat) [0%Z]).
Proof.
  intros Hwf Hf Hc.
  apply (is_anomalous_Ok (example_model l) [0%Z] feat 1); try done.
  - change (valid_labels (lgm_num_classes l) [0%Z]).
    rewrite Hc. repeat constructor; simpl; lia.
  - destruct l; cbn in *; tauto.
Qed.

Ltac example_shapes :=
  first [ split; (split; [reflexivity|repeat constructor])
        | split; [reflexivity|repeat constructor]
        | reflexivity ].

Ltac example_argmax :=
  cbn; rewrite ?exp_0;
  match goal with
  | |- context [Rlt_dec ?a ?b] => destruct (Rlt_dec a b); [try lra|try lra]
  end; try reflexivity.

(** C5: the flags that [is_anomalous] returns are [false] exactly where
    the class of the first maximal unmargined logit of the extracted
    feature is the claimed class, and [true] elsewhere.  It returns on
    every non-empty batch, unless [model.lgm] is an [LGMLoss] with a
    single class and the batch is not of one sample ([forward] raises
    there).  On the model with centers (0,0) and (10,10), alpha = 0 and
    the identity as extractor, feature (0.1,0.1) claimed as class 0 is not
    flagged and feature (10,10) claimed as class 0 is flagged. *)
Theorem C5_is_anomalous :
  (∀ (X : Type) (m : model X) (claimed_class : list Z) (x : X) (n : nat),
     lgm_wf (lgm m) →
     shape (net m x) n (lgm_feat_dim (lgm m)) →
     length claimed_class = n →
     valid_labels (lgm_num_classes (lgm m)) claimed_class →
     (∀ res, is_anomalous m claimed_class x = Ok res →
        ∃ logits margin_logits likelihood,
          lgm_forward (lgm m) (net m x) claimed_class
            = Ok (logits, margin_logits, likelihood) ∧
          length res = n ∧
          ∀ i c, claimed_class !! i = Some c →
            ∃ row p,
              logits !! i = Some row ∧ argmax row = Ok p ∧ first_max row p ∧
              (res !! i = Some false ↔ Z.of_nat p = c) ∧
              (res !! i = Some true ↔ Z.of_nat p ≠ c)) ∧
     (n ≠ 0%nat → ¬ one_class_mismatch (lgm m) n →
        ∃ res, is_anomalous m claimed_class x = Ok res)) ∧
  is_anomalous (example_model example_full) [0%Z] [[0.1; 0.1]] = Ok [false] ∧
  is_anomalous (example_model example_full) [0%Z] [[10; 10]] = Ok [true] ∧
  is_anomalous (example_model example_v0) [0%Z] [[0.1; 0.1]] = Ok [false] ∧
  is_anomalous (example_model example_v0) [0%Z] [[10; 10]] = Ok [true].
Proof.
  split.
  - intros X m claimed_class x n Hwf Hf Hn Hv. split.
    2:{ intros Hn0 Hm.
        destruct (is_anomalous_Ok m claimed_class x n) as (Hres & _);
          try done. eauto. }
    intros res Hr.
    assert (Hret : n ≠ 0%nat ∧ ¬ one_class_mismatch (lgm m) n).
    { unfold is_anomalous in Hr. cbv zeta in Hr.
      rewrite (lgm_forward_valid _ _ _ n) in Hr by done.
      repeat destruct (decide _); done. }
    destruct Hret as [Hn0 Hm].
    destruct (is_anomalous_Ok m claimed_class x n) as (Hres & Hls & Hc0);
      try done.
    rewrite Hres in Hr. injection Hr as <-.
    rewrite (lgm_forward_Ok _ _ _ n) by done.
    do 3 eexists. split; [done|]. split.
    { unfold anomalous_cf. rewrite length_zip_with, length_fmap.
      destruct Hls as [-> _]. lia. }
    intros i c Hc.
    assert (Hi : (i < n)%nat) by (apply lookup_lt_Some in Hc; lia).
    destruct (shape_lookup _ _ _ i Hls Hi) as (row & Hrow & Hlen).
    assert (Hne : row ≠ []) by (intros ->; cbn in Hlen; lia).
    destruct (argmax_Ok row Hne) as [Harg Hfm].
    exists row, (argmax_d row). split; [done|]. split; [done|].
    split; [done|].
    rewrite (anomalous_cf_lookup _ _ i row c) by done.
    destruct (Z.eqb_spec (Z.of_nat (argmax_d row)) c); cbn; split;
      split; intros; simplify_eq; done.
  - repeat split.
    + rewrite example_is_anomalous by example_shapes. example_argmax.
    + rewrite example_is_anomalous by example_shapes. example_argmax.
    + rewrite example_is_anomalous by example_shapes. example_argmax.
    + rewrite example_is_anomalous by example_shapes. example_argmax.
Qed.

(** The general part at the example model: one sample claimed as class 0. *)
Lemma C5_is_anomalous_witness :
  (∀ res, is_anomalous (example_model example_v0) [0%Z] [[0.1; 0.1]] = Ok res →
     ∃ logits margin_logits likelihood,
       lgm_forward example_v0 [[0.1; 0.1]] [0%Z]
         = Ok (logits, margin_logits, likelihood) ∧
       length res = 1%nat ∧
       ∀ i c, [0%Z] !! i = Some c →
         ∃ row p,
           logits !! i = Some row ∧ argmax row = Ok p ∧ first_max row p ∧
           (res !! i = Some false ↔ Z.of_nat p = c) ∧
           (res !! i = Some true ↔ Z.of_nat p ≠ c)) ∧
  ∃ res, is_anomalous (example_model example_v0) [0%Z] [[0.1; 0.1]] = Ok res.
Proof.
  destruct (proj1 C5_is_anomalous mat (example_model example_v0) [0%Z]
              [[0.1; 0.1]] 1%nat) as [Hall Hret].
  - split; [reflexivity|repeat constructor].
  - split; [reflexivity|repeat constructor].
  - reflexivity.
  - repeat constructor; simpl; lia.
  - split; [exact Hall|]. apply Hret; [lia|]. simpl. tauto.
Defined.

End C5.

(** * Further properties of the code *)

(** ** Batches of the wrong size *)
Section batch_sizes.
Import Torch.

Lemma scatter_too_many (self : mat) (index : list (list Z)) (v : R) :
  (length self < length index)%nat → scatter_ self index v = Err ShapeMismatch.
Proof. intros H. unfold scatter_. by rewrite decide_False by lia. Qed.

(** On an empty feature batch (no sample, of width feat_dim) neither
    [forward] returns.  With labels, [scatter_] rejects the index tensor,
    which has more rows than [y_onehot].  With no labels the division
    [1.0 / batch_size] raises, except in [LGMLoss] with a single class,
    where the selection of line 52 has raised before it. *)
Theorem forward_empty_batch (l : lgm_module) (feat : mat) (label : list Z) :
  lgm_wf l →
  shape feat 0 (lgm_feat_dim l) →
  lgm_forward l feat label =
    Err (if decide (label = []) then
           if decide (one_class_mismatch l 0) then IndexToScalar
           else ZeroDivision
         else ShapeMismatch).
Proof.
  intros Hwf Hf. destruct label as [|c label].
  - rewrite (lgm_forward_valid l feat [] 0) by (done || constructor).
    rewrite (decide_True (P := [] = [])) by done.
    by destruct (decide (one_class_mismatch l 0)).
  - assert (feat = []) as -> by (destruct Hf as [Hf _]; by destruct feat).
    rewrite decide_False by done. destruct l; reflexivity.
Qed.

(** The empty batch in a one-class [LGMLoss]. *)
Lemma forward_empty_batch_witness :
  lgm_forward (Full (LGMLoss.init 1 2 0.5 [[0; 0]])) [] [] = Err IndexToScalar.
Proof.
  apply (forward_empty_batch (Full (LGMLoss.init 1 2 0.5 [[0; 0]])) [] []).
  - split; (split; [reflexivity|repeat constructor]).
  - split; [reflexivity|constructor].
Defined.

(** More labels than samples: the call fails with a shape error, raised
    by [scatter_], whatever the labels are. *)
Theorem forward_too_many_labels (l : lgm_module) (feat : mat)
    (label : list Z) (n : nat) :
  lgm_wf l →
  shape feat n (lgm_feat_dim l) →
  (n < length label)%nat →
  lgm_forward l feat label = Err ShapeMismatch.
Proof.
  intros Hwf Hf Hlen.
  assert (Hs : ∀ c a, scatter_ (zeros (length feat) c) (unsqueeze_last label) a
                      = Err ShapeMismatch).
  { intros c a. apply scatter_too_many.
    unfold zeros, unsqueeze_last. rewrite length_replicate, length_fmap.
    destruct Hf as [-> _]. done. }
  destruct l as [self|self]; cbn [lgm_forward lgm_wf lgm_feat_dim] in *.
  - unfold LGMLoss.forward. cbv zeta.
    rewrite (LGMLoss_dist_Ok self feat n), bind_Ok by done.
    unfold LGMLoss.margin_dist, cuda. cbv zeta. by rewrite Hs.
  - unfold LGMLoss_v0.forward. cbv zeta.
    rewrite (LGMLoss_v0_dist_Ok self feat n), bind_Ok by done.
    unfold LGMLoss_v0.margin_dist, cuda. cbv zeta. by rewrite Hs.
Qed.

(** One sample, two labels. *)
Lemma forward_too_many_labels_witness :
  lgm_forward (Full (LGMLoss.init 2 2 0.5 [[0; 0]; [10; 10]]))
    [[1; 0]] [0%Z; 1%Z] = Err ShapeMismatch.
Proof.
  apply (forward_too_many_labels
           (Full (LGMLoss.init 2 2 0.5 [[0; 0]; [10; 10]]))
           [[1; 0]] [0%Z; 1%Z] 1).
  - split; (split; [reflexivity|repeat constructor]).
  - split; [reflexivity|repeat constructor].
  - simpl; lia.
Defined.

End batch_sizes.

(** ** Distances, logits and their bounds *)
Section bounds.
Import Torch.

(** Entry (i, k) of the distance tensor of either module. *)
Lemma lgm_dist_cf_entry (l : lgm_module) (feat : mat) (n i k : nat) :
  lgm_wf l → shape feat n (lgm_feat_dim l) →
  (i < n)%nat → (k < lgm_num_classes l)%nat →
  entry (lgm_dist_cf l feat) i k =
    Some (big_sum (lgm_feat_dim l)
            (λ d, (get feat i d - get (lgm_centers l) k d) ^ 2 / lgm_cov l k d)).
Proof.
  intros Hwf Hf Hi Hk.
  destruct (shape_lookup _ _ _ i Hf Hi) as (f & Hfi & Hlf).
  destruct (shape_lookup _ _ _ k (lgm_centers_shape l Hwf) Hk)
    as (c & Hck & Hlc).
  destruct l as [self|self];
    cbn [lgm_dist_cf lgm_feat_dim lgm_centers lgm_cov lgm_num_classes lgm_wf] in *.
  - destruct (shape_lookup _ _ _ k (proj2 Hwf) Hk) as (lc & Hlk & Hll).
    unfold get.
    rewrite (list_lookup_total_correct _ _ _ Hfi),
      (list_lookup_total_correct _ _ _ Hck),
      (list_lookup_total_correct _ _ _ Hlk).
    rewrite (LGMLoss_dist_cf_entry self feat i k f c lc) by done.
    by rewrite (sum_mahalanobis f c lc (LGMLoss.feat_dim self)).
  - unfold get.
    rewrite (list_lookup_total_correct _ _ _ Hfi),
      (list_lookup_total_correct _ _ _ Hck).
    rewrite (LGMLoss_v0_dist_cf_entry self feat i k f c) by done.
    rewrite (sum_squares f c (LGMLoss_v0.feat_dim self)) by done.
    f_equal. apply big_sum_ext. intros d _. lra.
Qed.

Lemma lgm_cov_pos (l : lgm_module) (k d : nat) : 0 < lgm_cov l k d.
Proof. destruct l; cbn; [apply exp_pos|lra]. Qed.

Lemma weighted_squares_nonneg (l : lgm_module) (feat centers : mat)
    (n i k : nat) :
  0 <= big_sum n (λ d, (get feat i d - get centers k d) ^ 2 / lgm_cov l k d).
Proof.
  apply big_sum_nonneg. intros d _.
  apply Rmult_le_pos; [apply pow2_ge_0|].
  left. apply Rinv_0_lt_compat, lgm_cov_pos.
Qed.

Lemma lgm_logit_decreasing (l : lgm_module) (k : nat) (x y : R) :
  x <= y → lgm_logit l k y <= lgm_logit l k x.
Proof. intros H. destruct l; cbn; lra. Qed.

Lemma lgm_logit_strict (l : lgm_module) (k : nat) (x y : R) :
  x < y → lgm_logit l k y < lgm_logit l k x.
Proof. intros H. destruct l; cbn; lra. Qed.

Lemma lgm_logits_cf_shape (l : lgm_module) (feat : mat) (n : nat) :
  lgm_wf l → shape feat n (lgm_feat_dim l) →
  shape (lgm_logits_cf l feat) n (lgm_num_classes l).
Proof.
  intros Hwf Hf.
  pose proof (lgm_dist_cf_shape _ _ n Hwf Hf) as Hds.
  destruct l as [self|self]; cbn in *.
  - apply shape_map2, shape_zip_with; [|done].
    split; [rewrite length_replicate; by destruct Hf|].
    apply Forall_replicate. rewrite sum_last2_length.
    by destruct Hwf as [_ [-> _]].
  - by apply shape_map2.
Qed.

Lemma lgm_margin_logits_cf_shape (l : lgm_module) (feat : mat)
    (label : list Z) (n : nat) :
  lgm_wf l → shape feat n (lgm_feat_dim l) → length label = n →
  shape (lgm_margin_logits_cf l feat label) n (lgm_num_classes l).
Proof.
  intros Hwf Hf Hn.
  pose proof (lgm_dist_cf_shape _ _ n Hwf Hf) as Hds.
  assert (n = length feat) as -> by (by destruct Hf).
  destruct l as [self|self]; cbn in *.
  - apply shape_map2, shape_zip_with; [|by apply margin_cf_shape].
    split; [by rewrite length_replicate|].
    apply Forall_replicate. rewrite sum_last2_length.
    by destruct Hwf as [_ [-> _]].
  - by apply shape_map2, margin_cf_shape.
Qed.

(** On a non-empty batch that the selection of line 52 accepts (any batch
    for [LGMLoss_v0] and for [LGMLoss] with two or more classes, a batch
    of one sample for [LGMLoss] with a single class), [forward] returns,
    and both logit tensors have one row per sample and one column per
    class. *)
Theorem forward_shapes (l : lgm_module) (feat : mat) (label : list Z)
    (n : nat) :
  lgm_wf l →
  shape feat n (lgm_feat_dim l) →
  length label = n →
  valid_labels (lgm_num_classes l) label →
  n ≠ 0%nat → ¬ one_class_mismatch l n →
  ∃ logits margin_logits likelihood,
    lgm_forward l feat label = Ok (logits, margin_logits, likelihood) ∧
    shape logits n (lgm_num_classes l) ∧
    shape margin_logits n (lgm_num_classes l).
Proof.
  intros Hwf Hf Hn Hv Hn0 Hm.
  rewrite (lgm_forward_Ok l feat label n) by done.
  do 3 eexists. split; [done|]. split.
  - by apply lgm_logits_cf_shape.
  - by apply lgm_margin_logits_cf_shape.
Qed.

Lemma forward_shapes_witness :
  ∃ logits margin_logits likelihood,
    lgm_forward (Full (LGMLoss.init 2 2 0.5 [[0; 0]; [10; 10]]))
      [[1; 0]; [9; 9]; [3; 4]] [0%Z; 1%Z; 0%Z]
      = Ok (logits, margin_logits, likelihood) ∧
    shape logits 3 2 ∧ shape margin_logits 3 2.
Proof.
  apply (forward_shapes (Full (LGMLoss.init 2 2 0.5 [[0; 0]; [10; 10]]))
           [[1; 0]; [9; 9]; [3; 4]] [0%Z; 1%Z; 0%Z] 3).
  - split; (split; [reflexivity|repeat constructor]).
  - split; [reflexivity|repeat constructor].
  - reflexivity.
  - repeat constructor; simpl; lia.
  - lia.
  - simpl; lia.
Defined.

(** In a call that returns (the batch is one that the selection of line 52
    accepts), a logit never exceeds its value at distance 0, and reaches
    it when the feature of the sample is the center of the class: for
    [LGMLoss] that value is -0.5 * sum of the log-variances of the class,
    for [LGMLoss_v0] it is 0. *)
Theorem logits_upper_bound (l : lgm_module) (feat : mat) (label : list Z)
    (n i k : nat) :
  lgm_wf l →
  shape feat n (lgm_feat_dim l) →
  length label = n →
  valid_labels (lgm_num_classes l) label →
  ¬ one_class_mismatch l n →
  (i < n)%nat → (k < lgm_num_classes l)%nat →
  ∃ logits margin_logits likelihood y,
    lgm_forward l feat label = Ok (logits, margin_logits, likelihood) ∧
    entry logits i k = Some y ∧
    y <= lgm_logit l k 0 ∧
    (feat !!! i = lgm_centers l !!! k → y = lgm_logit l k 0).
Proof.
  intros Hwf Hf Hn Hv Hm Hi Hk.
  destruct (lookup_lt_is_Some_2 label i ltac:(lia)) as [li Hli].
  destruct (lgm_entries l feat label n i k li) as (x & Hx & _ & Hlg & _);
    try done.
  rewrite (lgm_dist_cf_entry l feat n i k) in Hx by done.
  injection Hx as Hx.
  rewrite (lgm_forward_Ok l feat label n) by (done || lia).
  do 3 eexists. exists (lgm_logit l k x). split; [done|]. split; [done|].
  split.
  - apply lgm_logit_decreasing. rewrite <- Hx. apply weighted_squares_nonneg.
  - intros Heq. f_equal. rewrite <- Hx. apply big_sum_zero.
    intros d _. unfold get. rewrite Heq. unfold Rdiv. ring.
Qed.

Lemma logits_upper_bound_witness :
  ∃ logits margin_logits likelihood y,
    lgm_forward (Identity (LGMLoss_v0.mk 2 2 0.5 [[0; 0]; [10; 10]]))
      [[1; 0]; [10; 10]] [0%Z; 1%Z] = Ok (logits, margin_logits, likelihood) ∧
    entry logits 1 1 = Some y ∧
    y <= lgm_logit (Identity (LGMLoss_v0.mk 2 2 0.5 [[0; 0]; [10; 10]])) 1 0 ∧
    ([[1; 0]; [10; 10]] !!! 1%nat
       = lgm_centers (Identity (LGMLoss_v0.mk 2 2 0.5 [[0; 0]; [10; 10]])) !!! 1%nat →
     y = lgm_logit (Identity (LGMLoss_v0.mk 2 2 0.5 [[0; 0]; [10; 10]])) 1 0).
Proof.
  apply (logits_upper_bound
           (Identity (LGMLoss_v0.mk 2 2 0.5 [[0; 0]; [10; 10]]))
           [[1; 0]; [10; 10]] [0%Z; 1%Z] 2 1 1).
  - split; [reflexivity|repeat constructor].
  - split; [reflexivity|repeat constructor].
  - reflexivity.
  - repeat constructor; simpl; lia.
  - simpl; tauto.
  - lia.
  - simpl; lia.
Defined.

End bounds.

(** ** What the margin and the labels change, and what they do not *)
Section margin_effect.
Import Torch.

(** In a call that returns (the batch is one that the selection of line 52
    accepts), with a non-negative margin no entry of margin_logits exceeds
    the logit at the same place, and with a positive margin the entry of
    the true class is strictly lower as soon as the distance of the sample
    to that class is not 0. *)
Theorem margin_lowers_logits (l : lgm_module) (feat : mat) (label : list Z)
    (n i k : nat) (li : Z) :
  lgm_wf l →
  shape feat n (lgm_feat_dim l) →
  length label = n →
  valid_labels (lgm_num_classes l) label →
  ¬ one_class_mismatch l n →
  label !! i = Some li → (k < lgm_num_classes l)%nat →
  0 <= lgm_alpha l →
  ∃ dist logits margin_logits likelihood x y z,
    lgm_dist l feat = Ok dist ∧
    lgm_forward l feat label = Ok (logits, margin_logits, likelihood) ∧
    entry dist i k = Some x ∧
    entry logits i k = Some y ∧
    entry margin_logits i k = Some z ∧
    z <= y ∧
    (0 < lgm_alpha l → Z.of_nat k = li → 0 < x → z < y).
Proof.
  intros Hwf Hf Hn Hv Hm Hli Hk Ha.
  assert (Hi : (i < n)%nat) by (apply lookup_lt_Some in Hli; lia).
  destruct (lgm_entries l feat label n i k li) as (x & Hx & _ & Hlg & Hml);
    try done.
  assert (Hx0 : 0 <= x).
  { rewrite (lgm_dist_cf_entry l feat n i k) in Hx by done.
    injection Hx as <-. apply weighted_squares_nonneg. }
  rewrite (lgm_dist_Ok l feat n) by done.
  rewrite (lgm_forward_Ok l feat label n) by (done || lia).
  do 4 eexists.
  exists x, (lgm_logit l k x), (lgm_logit l k (x * weight (lgm_alpha l) k li)).
  split; [done|]. split; [done|]. split; [done|]. split; [done|].
  split; [done|]. unfold weight. split.
  - apply lgm_logit_decreasing. destruct (decide _); nra.
  - intros Hpos Hkl Hxpos. apply lgm_logit_strict.
    rewrite decide_True by done. nra.
Qed.

Lemma margin_lowers_logits_witness :
  ∃ dist logits margin_logits likelihood x y z,
    lgm_dist (Identity (LGMLoss_v0.mk 2 2 0.5 [[0; 0]; [10; 10]]))
      [[1; 0]; [9; 9]] = Ok dist ∧
    lgm_forward (Identity (LGMLoss_v0.mk 2 2 0.5 [[0; 0]; [10; 10]]))
      [[1; 0]; [9; 9]] [0%Z; 1%Z] = Ok (logits, margin_logits, likelihood) ∧
    entry dist 1 1 = Some x ∧
    entry logits 1 1 = Some y ∧
    entry margin_logits 1 1 = Some z ∧
    z <= y ∧
    (0 < lgm_alpha (Identity (LGMLoss_v0.mk 2 2 0.5 [[0; 0]; [10; 10]])) →
     Z.of_nat 1 = 1%Z → 0 < x → z < y).
Proof.
  apply (margin_lowers_logits
           (Identity (LGMLoss_v0.mk 2 2 0.5 [[0; 0]; [10; 10]]))
           [[1; 0]; [9; 9]] [0%Z; 1%Z] 2 1 1 1%Z).
  - split; [reflexivity|repeat constructor].
  - split; [reflexivity|repeat constructor].
  - reflexivity.
  - repeat constructor; simpl; lia.
  - simpl; tauto.
  - reflexivity.
  - simpl; lia.
  - simpl; lra.
Defined.

Lemma lgm_with_alpha_wf (a : R) (l : lgm_module) :
  lgm_wf l → lgm_wf (lgm_with_alpha a l).
Proof. by destruct l. Qed.

Lemma lgm_with_alpha_logits_cf (a : R) (l : lgm_module) (feat : mat) :
  lgm_logits_cf (lgm_with_alpha a l) feat = lgm_logits_cf l feat.
Proof. by destruct l. Qed.

Lemma lgm_with_alpha_mismatch {B} (a : R) (l : lgm_module) (n : nat) (x y : B) :
  (if decide (one_class_mismatch (lgm_with_alpha a l) n) then x else y)
  = (if decide (one_class_mismatch l n) then x else y).
Proof. apply decide_ext. by destruct l. Qed.

(** The unmargined logits depend on the features and on the centers and
    log-variances only: another valid label batch and another margin give
    the same logits (and the same failure on an empty batch). *)
Theorem logits_independent_of_labels_and_alpha (l : lgm_module) (a : R)
    (feat : mat) (label label' : list Z) (n : nat) :
  lgm_wf l →
  shape feat n (lgm_feat_dim l) →
  length label = n → valid_labels (lgm_num_classes l) label →
  length label' = n → valid_labels (lgm_num_classes l) label' →
  (λ r, r.1.1) <$> lgm_forward (lgm_with_alpha a l) feat label'
  = (λ r, r.1.1) <$> lgm_forward l feat label.
Proof.
  intros Hwf Hf Hn Hv Hn' Hv'.
  rewrite (lgm_forward_valid l feat label n) by done.
  rewrite (lgm_forward_valid (lgm_with_alpha a l) feat label' n);
    [|by apply lgm_with_alpha_wf|by destruct l..].
  rewrite lgm_with_alpha_mismatch.
  destruct (decide (one_class_mismatch l n)); [done|].
  destruct (decide (n = 0%nat)); [done|]. cbn.
  by rewrite lgm_with_alpha_logits_cf.
Qed.

Lemma logits_independent_of_labels_and_alpha_witness :
  (λ r, r.1.1) <$>
    lgm_forward (lgm_with_alpha 3 (Full (LGMLoss.init 2 2 0.5 [[0; 0]; [10; 10]])))
      [[1; 0]; [9; 9]] [1%Z; 1%Z]
  = (λ r, r.1.1) <$>
      lgm_forward (Full (LGMLoss.init 2 2 0.5 [[0; 0]; [10; 10]]))
        [[1; 0]; [9; 9]] [0%Z; 1%Z].
Proof.
  apply (logits_independent_of_labels_and_alpha
           (Full (LGMLoss.init 2 2 0.5 [[0; 0]; [10; 10]])) 3
           [[1; 0]; [9; 9]] [0%Z; 1%Z] [1%Z; 1%Z] 2).
  - split; (split; [reflexivity|repeat constructor]).
  - split; [reflexivity|repeat constructor].
  - reflexivity.
  - repeat constructor; simpl; lia.
  - reflexivity.
  - repeat constructor; simpl; lia.
Defined.

End margin_effect.

(** ** More on LGMUtils *)
Section utils_facts.
Import Torch LGMUtils.

(** The margin plays no part in [is_anomalous]: a model whose loss module
    was constructed with another alpha flags the same samples. *)
Theorem is_anomalous_independent_of_alpha {X} (m : model X) (a : R)
    (claimed_class : list Z) (x : X) (n : nat) :
  lgm_wf (lgm m) →
  shape (net m x) n (lgm_feat_dim (lgm m)) →
  length claimed_class = n →
  valid_labels (lgm_num_classes (lgm m)) claimed_class →
  is_anomalous (mk (net m) (lgm_with_alpha a (lgm m))) claimed_class x
  = is_anomalous m claimed_class x.
Proof.
  intros Hwf Hf Hn Hv. unfold is_anomalous. cbv zeta. cbn [net lgm].
  rewrite (lgm_forward_valid (lgm m) _ _ n) by done.
  rewrite (lgm_forward_valid (lgm_with_alpha a (lgm m)) _ _ n);
    [|by apply lgm_with_alpha_wf|by destruct (lgm m)..].
  rewrite lgm_with_alpha_mismatch.
  destruct (decide (one_class_mismatch (lgm m) n)); [done|].
  destruct (decide (n = 0%nat)); [done|].
  rewrite !bind_Ok. by rewrite lgm_with_alpha_logits_cf.
Qed.

Lemma is_anomalous_independent_of_alpha_witness :
  is_anomalous (mk (net (example_model example_full))
                  (lgm_with_alpha 7 (lgm (example_model example_full))))
    [0%Z; 0%Z] [[0.1; 0.1]; [10; 10]]
  = is_anomalous (example_model example_full) [0%Z; 0%Z] [[0.1; 0.1]; [10; 10]].
Proof.
  apply (is_anomalous_independent_of_alpha (example_model example_full) 7
           [0%Z; 0%Z] [[0.1; 0.1]; [10; 10]] 2).
  - split; (split; [reflexivity|repeat constructor]).
  - split; [reflexivity|repeat constructor].
  - reflexivity.
  - repeat constructor; simpl; lia.
Defined.

Lemma mapM_ext {A B} (f g : A → result B) (l : list A) :
  Forall (λ x, f x = g x) l → mapM f l = mapM g l.
Proof.
  induction 1 as [|x l Hx _ IH]; [done|]. cbn. by rewrite Hx, IH.
Qed.

Lemma getitem_wrap {A} (t : list A) (index : list Z) :
  Forall (λ j, (- Z.of_nat (length t) ≤ j)%Z) index →
  getitem t index = getitem t (wrap_index (length t) <$> index).
Proof.
  intros H. unfold getitem. rewrite mapM_fmap. apply mapM_ext.
  eapply Forall_impl; [exact H|]. intros j Hj. cbn in Hj. cbv zeta.
  unfold wrap_index.
  destruct (decide (j < 0)%Z) as [Hneg|Hpos].
  - by rewrite (decide_False (P := (j + Z.of_nat (length t) < 0)%Z)) by lia.
  - by rewrite (decide_False (P := (j < 0)%Z)) by lia.
Qed.

(** [get_likelihood] reads the center by indexing, so a negative claimed
    class -k (down to -num_classes) silently stands for class
    num_classes - k. *)
Theorem get_likelihood_negative_class {X} (m : model X)
    (claimed_class : list Z) (x : X) :
  Forall (λ j, (- Z.of_nat (length (lgm_centers (lgm m))) ≤ j)%Z)
    claimed_class →
  get_likelihood m claimed_class x
  = get_likelihood m
      (wrap_index (length (lgm_centers (lgm m))) <$> claimed_class) x.
Proof.
  intros H. unfold get_likelihood. cbv zeta. by rewrite <- getitem_wrap.
Qed.

Lemma get_likelihood_negative_class_witness :
  get_likelihood (example_model example_v0) [(-1)%Z] [[9; 9]]
  = get_likelihood (example_model example_v0)
      (wrap_index (length (lgm_centers (lgm (example_model example_v0))))
         <$> [(-1)%Z]) [[9; 9]].
Proof.
  apply (get_likelihood_negative_class (example_model example_v0)
           [(-1)%Z] [[9; 9]]).
  repeat constructor. simpl. lia.
Defined.

Lemma getitem_step {A} (t : list A) (j : Z) :
  let r := (let j' := if decide (j < 0)%Z
                      then (j + Z.of_nat (length t))%Z else j in
            if decide (0 ≤ j')%Z
            then match t !! Z.to_nat j' with
                 | Some x => Ok x
                 | None => Err IndexOutOfRange
                 end
            else Err IndexOutOfRange) in
  r = Err IndexOutOfRange ∨ ∃ x, r = Ok x.
Proof.
  cbv zeta. destruct (decide (0 ≤ _)%Z); [destruct (t !! _)|]; eauto.
Qed.

(** A claimed class that is neither in [0, num_classes) nor a negative
    index down to -num_classes makes [get_likelihood] fail with the index
    error, whatever the features are. *)
Theorem get_likelihood_class_out_of_range {X} (m : model X)
    (claimed_class : list Z) (x : X) :
  Exists (λ j, (j < - Z.of_nat (length (lgm_centers (lgm m)))
                ∨ Z.of_nat (length (lgm_centers (lgm m))) ≤ j)%Z)
    claimed_class →
  get_likelihood m claimed_class x = Err IndexOutOfRange.
Proof.
  intros H. unfold get_likelihood. cbv zeta.
  unfold getitem. rewrite (mapM_Err _ IndexOutOfRange); [done| |].
  - apply Forall_forall. intros j _. apply getitem_step.
  - eapply Exists_impl; [exact H|]. intros j Hj. cbn in Hj. cbv zeta.
    destruct (decide (j < 0)%Z) as [Hneg|Hpos].
    + by rewrite (decide_False (P := (0 ≤ j + _)%Z)) by lia.
    + rewrite (decide_True (P := (0 ≤ j)%Z)) by lia.
      assert (Hnone : lgm_centers (lgm m) !! Z.to_nat j = None)
        by (apply lookup_ge_None; lia).
      by rewrite Hnone.
Qed.

Lemma get_likelihood_class_out_of_range_witness :
  get_likelihood (example_model example_v0) [0%Z; 2%Z] [[9; 9]; [1; 1]]
  = Err IndexOutOfRange.
Proof.
  apply (get_likelihood_class_out_of_range (example_model example_v0)
           [0%Z; 2%Z] [[9; 9]; [1; 1]]).
  apply Exists_cons_tl, Exists_cons_hd. simpl. lia.
Defined.

Lemma exp_nondecreasing (a b : R) : a <= b → exp a <= exp b.
Proof.
  intros [Hlt| ->]; [left; by apply exp_increasing|right; reflexivity].
Qed.

(** [get_likelihood] returns one likelihood per sample, each between 0
    and 1.  (The exact value is positive; the rounded one may underflow to
    0 for a distant feature, so 0 is not excluded.) *)
Theorem get_likelihood_range {X} (m : model X) (claimed_class : list Z)
    (x : X) (n : nat) :
  lgm_wf (lgm m) →
  shape (net m x) n (lgm_feat_dim (lgm m)) →
  length claimed_class = n →
  valid_labels (lgm_num_classes (lgm m)) claimed_class →
  ∃ lkd,
    get_likelihood m claimed_class x = Ok lkd ∧
    length lkd = n ∧
    Forall (λ v, 0 <= v <= 1) lkd.
Proof.
  intros Hwf Hf Hn Hv.
  rewrite (get_likelihood_Ok m claimed_class x n) by done.
  eexists. split; [done|].
  pose proof (lgm_centers_shape _ Hwf) as Hc.
  assert (Hlen : length (likelihood_cf (lgm_centers (lgm m)) (net m x)
                           claimed_class) = n).
  { unfold likelihood_cf. rewrite length_fmap, length_zip_with, length_fmap.
    destruct Hf as [-> _]. lia. }
  split; [done|].
  apply Forall_lookup. intros i v Hiv.
  assert (Hi : (i < n)%nat) by (apply lookup_lt_Some in Hiv; lia).
  rewrite (likelihood_cf_lookup _ _ _ n (lgm_num_classes (lgm m))
             (lgm_feat_dim (lgm m))) in Hiv by done.
  injection Hiv as <-. split; [left; apply exp_pos|].
  apply Rle_trans with (exp 0); [|rewrite exp_0; lra].
  apply exp_nondecreasing.
  match goal with |- -0.5 * ?s <= 0 => assert (0 <= s) end; [|lra].
  apply big_sum_nonneg. intros j _. cbv beta.
  rewrite Rmult_1_r. apply Rle_0_sqr.
Qed.

Lemma get_likelihood_range_witness :
  ∃ lkd,
    get_likelihood (example_model example_full) [0%Z; 1%Z] [[3; 4]; [10; 10]]
      = Ok lkd ∧
    length lkd = 2%nat ∧ Forall (λ v, 0 <= v <= 1) lkd.
Proof.
  apply (get_likelihood_range (example_model example_full) [0%Z; 1%Z]
           [[3; 4]; [10; 10]] 2).
  - split; (split; [reflexivity|repeat constructor]).
  - split; [reflexivity|repeat constructor].
  - reflexivity.
  - repeat constructor; simpl; lia.
Defined.

End utils_facts.

(** ** The identity-covariance module and the freshly constructed one *)
Section identity_covariance.
Import Torch.

Lemma INR_inv_nonneg (n : nat) : 0 <= 1 / INR n.
Proof.
  destruct n as [|n]; [cbn; unfold Rdiv; rewrite Rinv_0; lra|].
  left. apply Rdiv_lt_0_compat; [lra|]. apply lt_0_INR. lia.
Qed.

(** The regularizer of [LGMLoss_v0.forward] is the mean over the batch of
    half the squared Euclidean distance of each sample to the center of
    its class; it is never negative, and it is 0 when every feature is the
    center of its class. *)
Theorem LGMLoss_v0_regularizer (self : LGMLoss_v0.t) (feat : mat)
    (label : list Z) (n : nat) :
  LGMLoss_v0_wf self →
  shape feat n (LGMLoss_v0.feat_dim self) →
  length label = n →
  valid_labels (LGMLoss_v0.num_classes self) label →
  n ≠ 0%nat →
  ∃ logits margin_logits likelihood,
    LGMLoss_v0.forward self feat label
      = Ok (logits, margin_logits, likelihood) ∧
    likelihood =
      (1 / INR n) * big_sum n
        (λ i, 0.5 * sq_dist (LGMLoss_v0.feat_dim self) feat
                      (LGMLoss_v0.centers self) i (class_of label i)) ∧
    0 <= likelihood ∧
    ((∀ i, (i < n)%nat →
        feat !!! i = LGMLoss_v0.centers self !!! class_of label i) →
     likelihood = 0).
Proof.
  intros Hwf Hf Hn Hv Hn0.
  rewrite (LGMLoss_v0_forward_valid self feat label n), decide_False by done.
  do 3 eexists. split; [done|].
  assert (Hlk : LGMLoss_v0_likelihood_cf self feat label =
      (1 / INR n) * big_sum n
        (λ i, 0.5 * sq_dist (LGMLoss_v0.feat_dim self) feat
                      (LGMLoss_v0.centers self) i (class_of label i))).
  { unfold LGMLoss_v0_likelihood_cf.
    rewrite (cdist_cf_big_sum _ _ _ n (LGMLoss_v0.num_classes self)
               (LGMLoss_v0.feat_dim self)) by done.
    rewrite big_sum_scale. unfold sq_dist.
    destruct Hf as [-> _]. lra. }
  split; [done|]. rewrite Hlk. split.
  - apply Rmult_le_pos; [apply INR_inv_nonneg|].
    apply big_sum_nonneg. intros i _.
    assert (0 <= sq_dist (LGMLoss_v0.feat_dim self) feat
              (LGMLoss_v0.centers self) i (class_of label i)); [|lra].
    apply big_sum_nonneg. intros j _. apply pow2_ge_0.
  - intros Hall. rewrite big_sum_zero; [lra|].
    intros i Hi. unfold sq_dist. rewrite big_sum_zero; [lra|].
    intros j _. unfold get. rewrite (Hall i Hi). ring.
Qed.

Lemma LGMLoss_v0_regularizer_witness :
  ∃ logits margin_logits likelihood,
    LGMLoss_v0.forward (LGMLoss_v0.mk 2 2 0.5 [[0; 0]; [10; 10]])
      [[1; 0]; [9; 9]] [0%Z; 1%Z] = Ok (logits, margin_logits, likelihood) ∧
    likelihood =
      (1 / INR 2) * big_sum 2
        (λ i, 0.5 * sq_dist 2 [[1; 0]; [9; 9]] [[0; 0]; [10; 10]] i
                      (class_of [0%Z; 1%Z] i)) ∧
    0 <= likelihood ∧
    ((∀ i, (i < 2)%nat →
        [[1; 0]; [9; 9]] !!! i
        = [[0; 0]; [10; 10]] !!! class_of [0%Z; 1%Z] i) →
     likelihood = 0).
Proof.
  apply (LGMLoss_v0_regularizer (LGMLoss_v0.mk 2 2 0.5 [[0; 0]; [10; 10]])
           [[1; 0]; [9; 9]] [0%Z; 1%Z] 2).
  - split; [reflexivity|repeat constructor].
  - split; [reflexivity|repeat constructor].
  - reflexivity.
  - repeat constructor; simpl; lia.
  - lia.
Defined.

Lemma sum_zeros (v : vec) : Forall (λ x, x = 0) v → sum v = 0.
Proof.
  induction 1 as [|x v -> _ IH]; [done|]. rewrite sum_cons, IH. lra.
Qed.

Lemma zip_with_plus_zero (r : vec) (c : nat) :
  length r = c → zip_with Rplus (replicate c 0) r = r.
Proof.
  intros <-. induction r as [|x r IH]; [done|].
  cbn [length replicate zip_with]. rewrite IH. f_equal. lra.
Qed.

Lemma zip_with_plus_zeros (m : mat) (n c : nat) :
  shape m n c →
  zip_with (zip_with Rplus) (replicate n (replicate c 0)) m = m.
Proof.
  intros [<- Hc]. induction Hc as [|r m Hr _ IH]; [done|].
  cbn [length replicate zip_with]. by rewrite zip_with_plus_zero, IH.
Qed.

Lemma sum_last2_zeros (lc : mat) :
  Forall (Forall (λ x, x = 0)) lc →
  sum_last2 lc = replicate (length lc) 0.
Proof.
  unfold sum_last2. induction 1 as [|r lc Hr _ IH]; [done|].
  cbn [length replicate]. rewrite fmap_cons, IH. f_equal. by apply sum_zeros.
Qed.

(** With all log-variances at 0 the distance of [LGMLoss] is the one of
    [LGMLoss_v0], in closed form. *)
Lemma LGMLoss_dist_cf_zero (self : LGMLoss.t) (self0 : LGMLoss_v0.t)
    (feat : mat) (n : nat) :
  LGMLoss_wf self → shape feat n (LGMLoss.feat_dim self) →
  LGMLoss_v0.centers self0 = LGMLoss.centers self →
  Forall (Forall (λ x, x = 0)) (LGMLoss.log_covs self) →
  LGMLoss_dist_cf self feat = LGMLoss_v0_dist_cf self0 feat.
Proof.
  intros [Hc Hl] Hf Hsame Hz.
  pose proof (diffs_Ok feat (LGMLoss.centers self) (LGMLoss.feat_dim self)
                (proj2 Hf) (proj2 Hc)) as Hdiff.
  pose proof (ew3_div_exp0 feat _ _ _ _ _ Hc Hl Hz Hdiff) as Hdiv.
  rewrite map3_unsqueeze0, repeat0_unsqueeze0 in Hdiv.
  rewrite ew3_same in Hdiv.
  - injection Hdiv as Hdiv. unfold LGMLoss_dist_cf, LGMLoss_v0_dist_cf.
    cbv zeta. by rewrite Hdiv, Hsame.
  - eapply shape3_Forall2; [by eapply diffs_shape|].
    destruct Hf as [<- _]. by apply shape3_replicate, shape_map2.
Qed.

(** On valid labels a module with all log-variances at 0, as
    [LGMLoss.__init__] leaves them, returns what [LGMLoss_v0] with the same
    configuration and centers returns: the same three results (on an empty
    batch, the same failure of the division).  This is for two or more
    classes, or a batch of one sample: with a single class and another
    batch size [LGMLoss.forward] raises at line 52, where
    [LGMLoss_v0.forward] has no counterpart. *)
Theorem LGMLoss_zero_log_covs_is_v0 (self : LGMLoss.t) (self0 : LGMLoss_v0.t)
    (feat : mat) (label : list Z) (n : nat) :
  LGMLoss_wf self →
  LGMLoss_v0.feat_dim self0 = LGMLoss.feat_dim self →
  LGMLoss_v0.num_classes self0 = LGMLoss.num_classes self →
  LGMLoss_v0.alpha self0 = LGMLoss.alpha self →
  LGMLoss_v0.centers self0 = LGMLoss.centers self →
  Forall (Forall (λ x, x = 0)) (LGMLoss.log_covs self) →
  shape feat n (LGMLoss.feat_dim self) →
  length label = n →
  valid_labels (LGMLoss.num_classes self) label →
  (LGMLoss.num_classes self = 1%nat → n = 1%nat) →
  LGMLoss.forward self feat label = LGMLoss_v0.forward self0 feat label.
Proof.
  intros Hwf Hd Hc Ha Hcs Hz Hf Hn Hv H1.
  assert (Hwf0 : LGMLoss_v0_wf self0).
  { unfold LGMLoss_v0_wf. rewrite Hd, Hc, Hcs. apply Hwf. }
  rewrite (LGMLoss_forward_valid self feat label n) by done.
  rewrite (LGMLoss_v0_forward_valid self0 feat label n)
    by (done || by rewrite ?Hd, ?Hc).
  rewrite (decide_False (P := _ ∧ _)) by lia.
  destruct (decide (n = 0%nat)); [done|].
  pose proof (LGMLoss_v0_dist_cf_shape self0 feat n Hwf0
                ltac:(by rewrite Hd)) as Hds.
  assert (Hslog : sum_last2 (LGMLoss.log_covs self)
                  = replicate (LGMLoss.num_classes self) 0).
  { rewrite sum_last2_zeros by done. by destruct Hwf as [_ [-> _]]. }
  assert (n = length feat) as -> by (by destruct Hf).
  unfold LGMLoss_logits_cf, LGMLoss_margin_logits_cf, LGMLoss_likelihood_cf,
    LGMLoss_v0_logits_cf, LGMLoss_v0_margin_logits_cf,
    LGMLoss_v0_likelihood_cf.
  rewrite (LGMLoss_dist_cf_zero self self0 feat (length feat)) by done.
  rewrite Hslog, <- Hc, <- Ha, <- Hcs.
  rewrite !zip_with_plus_zeros
    by (done || by apply margin_cf_shape).
  do 2 f_equal.
  assert (Hreg : sum ((λ l, replicate (LGMLoss_v0.num_classes self0) 0
                            !!! Z.to_nat l) <$> label) = 0).
  { apply sum_zeros, Forall_fmap, Forall_forall. intros l _. cbn.
    destruct (decide (Z.to_nat l < LGMLoss_v0.num_classes self0)%nat).
    - by rewrite lookup_total_replicate_2.
    - rewrite list_lookup_total_alt.
      by rewrite (proj1 (lookup_replicate_None _ _ _)) by lia. }
  rewrite Hreg. lra.
Qed.

Lemma LGMLoss_zero_log_covs_is_v0_witness :
  LGMLoss.forward (LGMLoss.init 2 2 0.5 [[0; 0]; [10; 10]])
    [[1; 0]; [9; 9]] [0%Z; 1%Z]
  = LGMLoss_v0.forward (LGMLoss_v0.mk 2 2 0.5 [[0; 0]; [10; 10]])
      [[1; 0]; [9; 9]] [0%Z; 1%Z].
Proof.
  apply (LGMLoss_zero_log_covs_is_v0
           (LGMLoss.init 2 2 0.5 [[0; 0]; [10; 10]])
           (LGMLoss_v0.mk 2 2 0.5 [[0; 0]; [10; 10]])
           [[1; 0]; [9; 9]] [0%Z; 1%Z] 2).
  - split; (split; [reflexivity|repeat constructor]).
  - reflexivity.
  - reflexivity.
  - reflexivity.
  - reflexivity.
  - repeat constructor.
  - split; [reflexivity|repeat constructor].
  - reflexivity.
  - repeat constructor; simpl; lia.
  - simpl; lia.
Defined.

End identity_covariance.

(** ** The two utilities agree under identity covariance *)
Section utils_agree.
Import Torch LGMUtils.

Lemma entry_row (t : mat) (i k : nat) (row : vec) (x : R) :
  t !! i = Some row → entry t i k = Some x → row !!! k = x.
Proof.
  unfold entry. intros -> H. cbn in H. by apply list_lookup_total_correct.
Qed.

(** With [LGMLoss_v0] as loss module, a sample that [is_anomalous] does not
    flag has, under its claimed class, a likelihood at least as large as
    under any other class. *)
Theorem not_anomalous_max_likelihood {X} (m : model X) (self : LGMLoss_v0.t)
    (claimed_class other_class : list Z) (x : X) (n i : nat)
    (res : list bool) :
  lgm m = Identity self →
  LGMLoss_v0_wf self →
  shape (net m x) n (LGMLoss_v0.feat_dim self) →
  length claimed_class = n →
  valid_labels (LGMLoss_v0.num_classes self) claimed_class →
  length other_class = n →
  valid_labels (LGMLoss_v0.num_classes self) other_class →
  (i < n)%nat →
  is_anomalous m claimed_class x = Ok res →
  res !! i = Some false →
  ∃ lkd lkd' v v',
    get_likelihood m claimed_class x = Ok lkd ∧
    get_likelihood m other_class x = Ok lkd' ∧
    lkd !! i = Some v ∧ lkd' !! i = Some v' ∧
    v' <= v.
Proof.
  intros Hm Hwf Hf Hn Hv Hn' Hv' Hi Hres Hflag.
  assert (Hwfm : lgm_wf (lgm m)) by (by rewrite Hm).
  assert (Hfm : shape (net m x) n (lgm_feat_dim (lgm m))) by (by rewrite Hm).
  assert (Hvm : valid_labels (lgm_num_classes (lgm m)) claimed_class)
    by (by rewrite Hm).
  assert (Hvm' : valid_labels (lgm_num_classes (lgm m)) other_class)
    by (by rewrite Hm).
  destruct (is_anomalous_Ok m claimed_class x n) as (Hcf & Hls & Hc0);
    [done|done|done|done|lia|rewrite Hm; cbn; tauto|].
  rewrite Hcf in Hres. injection Hres as <-.
  destruct (shape_lookup _ _ _ i Hls Hi) as (row & Hrow & Hlen).
  destruct (lookup_lt_is_Some_2 claimed_class i ltac:(lia)) as [c Hc].
  destruct (lookup_lt_is_Some_2 other_class i ltac:(lia)) as [c' Hc'].
  rewrite (anomalous_cf_lookup _ _ i row c) in Hflag by done.
  injection Hflag as Hflag. apply negb_false_iff, Z.eqb_eq in Hflag.
  assert (Hne : row ≠ []).
  { intros ->. cbn in Hlen. lia. }
  destruct (argmax_Ok row Hne) as [_ (Hp & Hmax & _)].
  assert (Hcls : class_of claimed_class i = argmax_d row).
  { unfold class_of. rewrite (list_lookup_total_correct _ _ _ Hc). lia. }
  assert (Hk : (class_of other_class i < lgm_num_classes (lgm m))%nat).
  { unfold class_of. rewrite (list_lookup_total_correct _ _ _ Hc').
    unfold valid_labels in Hvm'. rewrite Forall_lookup in Hvm'.
    specialize (Hvm' _ _ Hc'). cbn in Hvm'. lia. }
  assert (Hent : ∀ k, (k < lgm_num_classes (lgm m))%nat →
            row !!! k = -0.5 * sq_dist (lgm_feat_dim (lgm m)) (net m x)
                                 (lgm_centers (lgm m)) i k).
  { intros k Hklt.
    destruct (lgm_entries (lgm m) (net m x) claimed_class n i k c)
      as (d & Hd & _ & Hlg & _); try done.
    rewrite (lgm_dist_cf_entry (lgm m) (net m x) n i k) in Hd by done.
    injection Hd as <-.
    rewrite (entry_row _ _ _ _ _ Hrow Hlg). rewrite Hm. cbn.
    f_equal. unfold sq_dist. apply big_sum_ext. intros j _. lra. }
  pose proof (Hmax (class_of other_class i) ltac:(lia)) as Hle.
  rewrite (Hent _ Hk), (Hent (argmax_d row)) in Hle by lia.
  rewrite !(get_likelihood_Ok m _ x n) by done.
  pose proof (lgm_centers_shape _ Hwfm) as Hcs.
  do 4 eexists. split; [done|]. split; [done|].
  split; [by apply (likelihood_cf_lookup _ _ _ n (lgm_num_classes (lgm m))
                       (lgm_feat_dim (lgm m)))|].
  split; [by apply (likelihood_cf_lookup _ _ _ n (lgm_num_classes (lgm m))
                       (lgm_feat_dim (lgm m)))|].
  apply exp_nondecreasing. rewrite Hcls. unfold sq_dist in Hle. lra.
Qed.

Lemma not_anomalous_max_likelihood_witness :
  ∃ lkd lkd' v v',
    get_likelihood (example_model example_v0) [0%Z] [[0.1; 0.1]] = Ok lkd ∧
    get_likelihood (example_model example_v0) [1%Z] [[0.1; 0.1]] = Ok lkd' ∧
    lkd !! 0%nat = Some v ∧ lkd' !! 0%nat = Some v' ∧
    v' <= v.
Proof.
  apply (not_anomalous_max_likelihood (example_model example_v0)
           (LGMLoss_v0.mk 2 2 0 [[0; 0]; [10; 10]])
           [0%Z] [1%Z] [[0.1; 0.1]] 1 0 [false]).
  - reflexivity.
  - split; [reflexivity|repeat constructor].
  - split; [reflexivity|repeat constructor].
  - reflexivity.
  - repeat constructor; simpl; lia.
  - reflexivity.
  - repeat constructor; simpl; lia.
  - lia.
  - rewrite example_is_anomalous
      by (first [split; [reflexivity|repeat constructor]|reflexivity]).
    cbn. destruct (Rlt_dec _ _); [lra|reflexivity].
  - reflexivity.
Defined.

End utils_agree.

(** ** Joining two batches *)
Section concatenation.
Import Torch.

Lemma diffs_length (feat centers : mat) :
  length (diffs feat centers) = length feat.
Proof. unfold diffs. by rewrite length_fmap. Qed.

Lemma lgm_dist_cf_app (l : lgm_module) (feat1 feat2 : mat) :
  lgm_dist_cf l (feat1 ++ feat2) = lgm_dist_cf l feat1 ++ lgm_dist_cf l feat2.
Proof.
  destruct l as [self|self]; cbn [lgm_dist_cf];
    unfold LGMLoss_dist_cf, LGMLoss_v0_dist_cf, sum_last3, diffs; cbv zeta;
    rewrite ?length_app, ?replicate_add, !fmap_app.
  - rewrite zip_with_app by (by rewrite length_fmap, length_replicate).
    rewrite zip_with_app
      by (by rewrite length_fmap, length_zip_with, length_fmap,
             length_replicate, Nat.min_id).
    by rewrite fmap_app.
  - rewrite zip_with_app by done. by rewrite fmap_app.
Qed.

Lemma lgm_dist_cf_length (l : lgm_module) (feat : mat) :
  length (lgm_dist_cf l feat) = length feat.
Proof.
  destruct l as [self|self]; cbn [lgm_dist_cf];
    unfold LGMLoss_dist_cf, LGMLoss_v0_dist_cf, sum_last3, diffs; cbv zeta;
    rewrite !length_fmap, !length_zip_with, ?length_zip_with, !length_fmap,
      ?length_replicate; lia.
Qed.

Lemma margin_cf_app (n1 n2 c : nat) (d1 d2 : mat) (label1 label2 : list Z)
    (a : R) :
  length d1 = n1 → length label1 = n1 →
  margin_cf (n1 + n2) c (d1 ++ d2) (label1 ++ label2) a
  = margin_cf n1 c d1 label1 a ++ margin_cf n2 c d2 label2 a.
Proof.
  intros Hd Hl. unfold margin_cf, onehot, zeros, map2.
  rewrite replicate_add.
  rewrite zip_with_app by (by rewrite length_replicate).
  rewrite fmap_app. apply zip_with_app.
  rewrite length_fmap, length_zip_with, length_replicate. lia.
Qed.

Lemma map2_app f (m1 m2 : mat) : map2 f (m1 ++ m2) = map2 f m1 ++ map2 f m2.
Proof. unfold map2. apply fmap_app. Qed.

(** Running [forward] on two non-empty batches joined end to end gives
    the rows of the two separate runs, one after the other, for logits and
    for margin_logits: a row depends on its own sample and label only.
    The joined batch has two or more samples, so for [LGMLoss] this needs
    two or more classes (with a single class line 52 raises on it). *)
Theorem forward_concat (l : lgm_module) (feat1 feat2 : mat)
    (label1 label2 : list Z) (n1 n2 : nat) :
  lgm_wf l →
  shape feat1 n1 (lgm_feat_dim l) → shape feat2 n2 (lgm_feat_dim l) →
  length label1 = n1 → length label2 = n2 →
  valid_labels (lgm_num_classes l) label1 →
  valid_labels (lgm_num_classes l) label2 →
  n1 ≠ 0%nat → n2 ≠ 0%nat →
  ¬ one_class_mismatch l (n1 + n2) →
  ∃ logits1 margin1 lkd1 logits2 margin2 lkd2 lkd,
    lgm_forward l feat1 label1 = Ok (logits1, margin1, lkd1) ∧
    lgm_forward l feat2 label2 = Ok (logits2, margin2, lkd2) ∧
    lgm_forward l (feat1 ++ feat2) (label1 ++ label2)
      = Ok (logits1 ++ logits2, margin1 ++ margin2, lkd).
Proof.
  intros Hwf Hf1 Hf2 Hl1 Hl2 Hv1 Hv2 Hn1 Hn2 Hm.
  assert (Hf : shape (feat1 ++ feat2) (n1 + n2) (lgm_feat_dim l)).
  { destruct Hf1 as [Hlen1 Hd1], Hf2 as [Hlen2 Hd2]. split.
    - rewrite length_app. lia.
    - by apply Forall_app. }
  assert (Hm1 : ¬ one_class_mismatch l n1) by (destruct l; cbn in *; lia).
  assert (Hm2 : ¬ one_class_mismatch l n2) by (destruct l; cbn in *; lia).
  rewrite (lgm_forward_Ok l feat1 label1 n1) by done.
  rewrite (lgm_forward_Ok l feat2 label2 n2) by done.
  rewrite (lgm_forward_Ok l (feat1 ++ feat2) (label1 ++ label2) (n1 + n2));
    [|done|done|rewrite length_app; lia|by apply Forall_app|done|lia].
  do 6 eexists. exists (lgm_likelihood_cf l (feat1 ++ feat2) (label1 ++ label2)).
  split; [done|]. split; [done|].
  assert (Hlen1 : length feat1 = n1) by (by destruct Hf1).
  assert (Hlen2 : length feat2 = n2) by (by destruct Hf2).
  destruct l as [self|self];
    cbn [lgm_logits_cf lgm_margin_logits_cf lgm_likelihood_cf lgm_num_classes
         lgm_alpha].
  - pose proof (lgm_dist_cf_app (Full self) feat1 feat2) as Happ.
    pose proof (lgm_dist_cf_length (Full self) feat1) as Hdl.
    cbn [lgm_dist_cf] in Happ, Hdl.
    unfold LGMLoss_logits_cf, LGMLoss_margin_logits_cf.
    rewrite Happ, !length_app, Hlen1, Hlen2, !replicate_add.
    rewrite margin_cf_app by lia.
    rewrite !zip_with_app
      by (rewrite length_replicate;
          first [by rewrite Hdl
                |unfold margin_cf; rewrite length_zip_with, Hdl;
                 unfold map2, onehot, zeros;
                 rewrite length_fmap, length_zip_with, length_replicate; lia]).
    by rewrite !map2_app.
  - pose proof (lgm_dist_cf_app (Identity self) feat1 feat2) as Happ.
    pose proof (lgm_dist_cf_length (Identity self) feat1) as Hdl.
    cbn [lgm_dist_cf] in Happ, Hdl.
    unfold LGMLoss_v0_logits_cf, LGMLoss_v0_margin_logits_cf.
    rewrite Happ, !length_app, Hlen1, Hlen2.
    rewrite margin_cf_app by lia.
    by rewrite !map2_app.
Qed.

Lemma forward_concat_witness :
  ∃ logits1 margin1 lkd1 logits2 margin2 lkd2 lkd,
    lgm_forward (Full (LGMLoss.init 2 2 0.5 [[0; 0]; [10; 10]]))
      [[1; 0]] [0%Z] = Ok (logits1, margin1, lkd1) ∧
    lgm_forward (Full (LGMLoss.init 2 2 0.5 [[0; 0]; [10; 10]]))
      [[9; 9]; [3; 4]] [1%Z; 0%Z] = Ok (logits2, margin2, lkd2) ∧
    lgm_forward (Full (LGMLoss.init 2 2 0.5 [[0; 0]; [10; 10]]))
      ([[1; 0]] ++ [[9; 9]; [3; 4]]) ([0%Z] ++ [1%Z; 0%Z])
      = Ok (logits1 ++ logits2, margin1 ++ margin2, lkd).
Proof.
  apply (forward_concat (Full (LGMLoss.init 2 2 0.5 [[0; 0]; [10; 10]]))
           [[1; 0]] [[9; 9]; [3; 4]] [0%Z] [1%Z; 0%Z] 1 2).
  - split; (split; [reflexivity|repeat constructor]).
  - split; [reflexivity|repeat constructor].
  - split; [reflexivity|repeat constructor].
  - reflexivity.
  - reflexivity.
  - repeat constructor; simpl; lia.
  - repeat constructor; simpl; lia.
  - lia.
  - lia.
  - simpl; lia.
Defined.

End concatenation.

(** ** Fewer labels than samples *)
Section short_labels.
Import Torch.

Lemma bcast_mismatch {A B C} (f : A → B → result C) (x : list A) (y : list B) :
  length x ≠ 1%nat → length y ≠ 1%nat → length x ≠ length y →
  bcast f x y = Err ShapeMismatch.
Proof.
  intros Hx Hy Hxy.
  destruct x as [|a [|a' x]], y as [|b [|b' y]]; cbn [length] in *;
    try done; unfold bcast; by rewrite decide_False.
Qed.

Lemma scatter_short (n c : nat) (label : list Z) (v : R) :
  (length label ≤ n)%nat → valid_labels c label →
  scatter_ (zeros n c) (unsqueeze_last label) v
  = Ok (onehot (length label) c label v ++ zeros (n - length label) c).
Proof.
  intros Hn Hv. unfold scatter_, unsqueeze_last, zeros, onehot.
  rewrite length_fmap, length_replicate, decide_True by lia.
  rewrite take_replicate, drop_replicate, Nat.min_l by lia.
  rewrite zipM_fmap_r.
  rewrite (zipM_Ok _ (λ row l, <[Z.to_nat l := v]> row)), bind_Ok; [done|].
  apply Forall2_same_length_lookup_2; [by rewrite length_replicate|].
  intros i row l Hrow Hl. apply lookup_replicate in Hrow as [-> _].
  rewrite scatter_row_1, length_replicate, decide_True; [done|].
  unfold valid_labels in Hv. rewrite Forall_lookup in Hv. eauto.
Qed.

Lemma short_weights_shape (n c : nat) (label : list Z) (a : R) :
  (length label ≤ n)%nat → shape (short_weights n c label a) n c.
Proof.
  intros Hn. unfold short_weights. apply shape_map2. split.
  - rewrite length_app. unfold zeros. rewrite length_replicate.
    destruct (onehot_shape (length label) c label a eq_refl) as [-> _]. lia.
  - apply Forall_app. split; [by apply (onehot_shape (length label))|].
    unfold zeros. by apply Forall_replicate, length_replicate.
Qed.

Lemma margin_body_short (n c : nat) (dist : mat) (label : list Z) (a : R) :
  shape dist n c → (length label ≤ n)%nat → valid_labels c label →
  (y_onehot ← scatter_ (zeros n c) (unsqueeze_last label) a;
   ew2 Rmult dist (map2 (λ x, x + 1.0) y_onehot))
  = Ok (zip_with (zip_with Rmult) dist (short_weights n c label a)).
Proof.
  intros Hd Hn Hv. rewrite scatter_short, bind_Ok by done.
  apply ew2_same. eapply shape_Forall2; [exact Hd|].
  by apply short_weights_shape.
Qed.

Lemma slog_shape (self : LGMLoss.t) (n : nat) :
  LGMLoss_wf self →
  shape (replicate n (sum_last2 (LGMLoss.log_covs self))) n
    (LGMLoss.num_classes self).
Proof.
  intros [_ [Hl _]]. split; [by rewrite length_replicate|].
  apply Forall_replicate. by rewrite sum_last2_length.
Qed.

(** The part of [forward] before the subtraction of the selected centers
    (line 48, line 92 in [LGMLoss_v0]), rewritten to its closed form. *)
Ltac forward_prefix self feat Hwf Hf Hv Hlen :=
  assert (length feat = _) as Hlen by (by destruct Hf);
  first
    [ unfold LGMLoss.forward; cbv zeta;
      rewrite (LGMLoss_dist_Ok self feat _ Hwf Hf), bind_Ok;
      unfold LGMLoss.margin_dist, cuda; cbv zeta; rewrite Hlen;
      rewrite margin_body_short, bind_Ok
        by (done || (cbn [length]; lia) || by eapply LGMLoss_dist_cf_shape);
      rewrite sum_last3_unsqueeze0, repeat0_unsqueeze0;
      rewrite (ew2_same Rplus _ (zip_with _ _ _)), fmap_Ok, bind_Ok
        by (eapply shape_Forall2; [by apply slog_shape|];
            apply shape_zip_with;
            [by eapply LGMLoss_dist_cf_shape
             |apply short_weights_shape; cbn [length]; lia]);
      rewrite (ew2_same Rplus _ (LGMLoss_dist_cf _ _)), fmap_Ok, bind_Ok
        by (eapply shape_Forall2;
            [by apply slog_shape|by eapply LGMLoss_dist_cf_shape]);
      rewrite (index_select_Ok (LGMLoss.centers self)), bind_Ok
        by (by destruct Hwf as [[-> _] _])
    | unfold LGMLoss_v0.forward; cbv zeta;
      rewrite (LGMLoss_v0_dist_Ok self feat _ Hwf Hf), bind_Ok;
      unfold LGMLoss_v0.margin_dist, cuda; cbv zeta; rewrite Hlen;
      rewrite margin_body_short, bind_Ok
        by (done || (cbn [length]; lia) || by eapply LGMLoss_v0_dist_cf_shape);
      rewrite (index_select_Ok (LGMLoss_v0.centers self)), bind_Ok
        by (by destruct Hwf as [-> _]) ].

(** Valid labels that are more than one and fewer than the samples: the
    distance tensor is computed, the margin stage goes through
    ([scatter_] accepts an index tensor with fewer rows), the centers of
    the labels are selected, and the subtraction of the selected centers
    from the features fails with a shape error, which is the error of
    the call. *)
Theorem forward_too_few_labels (l : lgm_module) (feat : mat)
    (label : list Z) (n : nat) :
  lgm_wf l →
  shape feat n (lgm_feat_dim l) →
  valid_labels (lgm_num_classes l) label →
  (1 < length label < n)%nat →
  ∃ dist margin_dist sel,
    lgm_dist l feat = Ok dist ∧
    lgm_margin_dist l n dist label = Ok margin_dist ∧
    index_select (lgm_centers l) label = Ok sel ∧
    ew2 Rminus feat sel = Err ShapeMismatch ∧
    lgm_forward l feat label = Err ShapeMismatch.
Proof.
  intros Hwf Hf Hv Hn.
  pose proof (lgm_centers_shape l Hwf) as Hcs.
  pose proof (lgm_dist_cf_shape l feat n Hwf Hf) as Hds.
  exists (lgm_dist_cf l feat),
    (zip_with (zip_with Rmult) (lgm_dist_cf l feat)
       (short_weights n (lgm_num_classes l) label (lgm_alpha l))),
    ((λ j, lgm_centers l !!! Z.to_nat j) <$> label).
  split; [by eapply lgm_dist_Ok|].
  split; [destruct l; apply margin_body_short; (done || lia)|].
  split; [apply index_select_Ok; by destruct Hcs as [-> _]|].
  split.
  { unfold ew2. destruct Hf as [Hlf _].
    apply bcast_mismatch; rewrite ?length_fmap; lia. }
  destruct l as [self|self];
    cbn [lgm_forward lgm_wf lgm_feat_dim lgm_num_classes] in *;
    forward_prefix self feat Hwf Hf Hv Hlen;
    unfold ew2 at 1;
    rewrite bcast_mismatch; rewrite ?length_fmap; (done || lia).
Qed.

Lemma forward_too_few_labels_witness :
  let l := Full (LGMLoss.init 2 2 0.5 [[0; 0]; [10; 10]]) in
  ∃ dist margin_dist sel,
    lgm_dist l [[1; 0]; [9; 9]; [3; 4]] = Ok dist ∧
    lgm_margin_dist l 3 dist [0%Z; 1%Z] = Ok margin_dist ∧
    index_select (lgm_centers l) [0%Z; 1%Z] = Ok sel ∧
    ew2 Rminus [[1; 0]; [9; 9]; [3; 4]] sel = Err ShapeMismatch ∧
    lgm_forward l [[1; 0]; [9; 9]; [3; 4]] [0%Z; 1%Z] = Err ShapeMismatch.
Proof.
  apply (forward_too_few_labels
           (Full (LGMLoss.init 2 2 0.5 [[0; 0]; [10; 10]]))
           [[1; 0]; [9; 9]; [3; 4]] [0%Z; 1%Z] 3).
  - split; (split; [reflexivity|repeat constructor]).
  - split; [reflexivity|repeat constructor].
  - repeat constructor; simpl; lia.
  - simpl; lia.
Defined.

(** The weights of the rows that have a label. *)
Lemma short_weights_entry (n c : nat) (label : list Z) (a : R) (i j : nat)
    (li : Z) :
  label !! i = Some li → (0 ≤ li)%Z → (j < c)%nat →
  entry (short_weights n c label a) i j = Some (weight a j li).
Proof.
  intros Hli Hl0 Hj. unfold short_weights, weight.
  apply (entry_map2 (λ x, x + 1.0) _ i j
           (if decide (Z.of_nat j = li) then a else 0)).
  pose proof (lookup_lt_Some _ _ _ Hli) as Hi.
  pose proof (onehot_entry (length label) c label a i j li Hli Hl0 Hi Hj) as He.
  unfold entry in *. rewrite lookup_app_l; [done|].
  by destruct (onehot_shape (length label) c label a eq_refl) as [-> _].
Qed.

(** A logit entry from the distance entry it is computed from. *)
Lemma logit_of_dist_entry (l : lgm_module) (n i j : nat) (m : mat) (x : R) :
  lgm_wf l → (i < n)%nat → (j < lgm_num_classes l)%nat →
  entry m i j = Some x →
  entry (match l with
         | Full self =>
             map2 (Rmult (-0.5))
               (zip_with (zip_with Rplus)
                  (replicate n (sum_last2 (LGMLoss.log_covs self))) m)
         | Identity _ => map2 (Rmult (-0.5)) m
         end) i j = Some (lgm_logit l j x).
Proof.
  intros Hwf Hi Hj Hx. destruct l as [self|self];
    cbn [lgm_logit lgm_wf lgm_num_classes] in *.
  - destruct (shape_lookup _ _ _ j (proj2 Hwf) Hj) as (lc & Hlk & Hll).
    unfold get. rewrite (list_lookup_total_correct _ _ _ Hlk), <- Hll.
    apply entry_map2, entry_zip_with; [|done].
    by apply LGMLoss_slog_entry.
  - by apply entry_map2.
Qed.

Lemma short_weights_row (n c : nat) (label : list Z) (a : R) (i : nat) :
  (length label ≤ i < n)%nat →
  short_weights n c label a !! i = Some (replicate c (0 + 1.0)).
Proof.
  intros Hi. unfold short_weights, map2, map1.
  rewrite list_lookup_fmap, lookup_app_r;
    destruct (onehot_shape (length label) c label a eq_refl) as [Hlen _];
    rewrite Hlen; [|lia].
  unfold zeros. rewrite lookup_replicate_2 by lia. cbn.
  by rewrite fmap_replicate.
Qed.

Lemma unweighted_row (n c : nat) (dist : mat) (label : list Z) (a : R)
    (i : nat) :
  shape dist n c → (length label ≤ i < n)%nat →
  zip_with (zip_with Rmult) dist (short_weights n c label a) !! i = dist !! i.
Proof.
  intros Hd Hi.
  destruct (shape_lookup _ _ _ i Hd ltac:(lia)) as (r & Hr & Hlen).
  rewrite lookup_zip_with, Hr, short_weights_row by done. cbn.
  by rewrite zip_with_mult_one.
Qed.

Lemma cdist_cf_broadcast (centers feat : mat) (k : Z) (n c d : nat) :
  shape centers c d → shape feat n d → (0 ≤ k < Z.of_nat c)%Z →
  sum (sum_last2 (map2 (λ x, x ^ 2)
         ((λ f, zip_with Rminus f (centers !!! Z.to_nat k)) <$> feat)))
  = big_sum n (λ i, sq_dist d feat centers i (Z.to_nat k)).
Proof.
  intros Hc Hf Hk.
  assert (Hv : valid_labels c (replicate n k)) by (by apply Forall_replicate).
  assert ((λ f, zip_with Rminus f (centers !!! Z.to_nat k)) <$> feat
          = zip_with (zip_with Rminus) feat
              ((λ l, centers !!! Z.to_nat l) <$> replicate n k)) as ->.
  { rewrite fmap_replicate, zip_with_replicate_r_eq by (by destruct Hf).
    done. }
  change (cdist_cf centers feat (replicate n k) =
          big_sum n (λ i, sq_dist d feat centers i (Z.to_nat k))).
  rewrite (cdist_cf_big_sum _ _ _ n c d) by (done || by rewrite length_replicate).
  apply big_sum_ext. intros i Hi. unfold sq_dist, class_of.
  by rewrite lookup_total_replicate_2.
Qed.

(** One label for a batch of several samples is accepted, by
    broadcasting: the call returns, the margin is applied to the first
    sample and to no other (row 0 of margin_logits has the distance of
    class k weighted by 1 + alpha, the rows of margin_logits of the other
    samples are their rows of logits), and the regularizer measures every
    sample against the center of that one class and counts its
    log-variances once. *)
Theorem forward_single_label (l : lgm_module) (feat : mat) (k : Z) (n : nat) :
  lgm_wf l →
  shape feat n (lgm_feat_dim l) →
  (0 ≤ k < Z.of_nat (lgm_num_classes l))%Z →
  (1 < n)%nat →
  ∃ dist logits margin_logits likelihood,
    lgm_dist l feat = Ok dist ∧
    lgm_forward l feat [k] = Ok (logits, margin_logits, likelihood) ∧
    (∀ j, (j < lgm_num_classes l)%nat →
       ∃ x, entry dist 0 j = Some x ∧
            entry logits 0 j = Some (lgm_logit l j x) ∧
            entry margin_logits 0 j
              = Some (lgm_logit l j
                        (x * if decide (Z.of_nat j = k)
                             then 1 + lgm_alpha l else 1))) ∧
    (∀ i, (1 ≤ i < n)%nat → margin_logits !! i = logits !! i) ∧
    likelihood =
      (1 / INR n) *
      (big_sum n (λ i, 0.5 * sq_dist (lgm_feat_dim l) feat (lgm_centers l) i
                               (Z.to_nat k))
       + 0.5 * lgm_slog_cov l (Z.to_nat k)).
Proof.
  intros Hwf Hf Hk Hn.
  assert (Hv : valid_labels (lgm_num_classes l) [k])
    by (constructor; [exact Hk|constructor]).
  pose proof (lgm_centers_shape l Hwf) as Hcs.
  destruct (shape_lookup _ _ _ (Z.to_nat k) Hcs ltac:(lia)) as (ck & Hck & Hlck).
  assert (Hsub : ew2 Rminus feat ((λ j, lgm_centers l !!! Z.to_nat j) <$> [k])
                 = Ok ((λ f, zip_with Rminus f (lgm_centers l !!! Z.to_nat k))
                       <$> feat)).
  { unfold ew2. change ((λ j, lgm_centers l !!! Z.to_nat j) <$> [k])
      with [lgm_centers l !!! Z.to_nat k].
    rewrite bcast_r1. apply mapM_Ok.
    destruct Hf as [_ Hfd]. eapply Forall_impl; [exact Hfd|].
    intros f Hlf. cbn in Hlf. apply ew1_same.
    by rewrite (list_lookup_total_correct _ _ _ Hck), Hlck. }
  pose proof (cdist_cf_broadcast _ _ k n _ _ Hcs Hf Hk) as Hcd.
  pose proof (lgm_dist_cf_shape l feat n Hwf Hf) as Hds.
  assert (HI : INR n ≠ 0) by (apply not_0_INR; lia).
  assert (Hrow0 : ∀ j, (j < lgm_num_classes l)%nat →
            ∃ x, entry (lgm_dist_cf l feat) 0 j = Some x ∧
                 entry (zip_with (zip_with Rmult) (lgm_dist_cf l feat)
                          (short_weights n (lgm_num_classes l) [k] (lgm_alpha l)))
                   0 j
                 = Some (x * if decide (Z.of_nat j = k)
                             then 1 + lgm_alpha l else 1)).
  { intros j Hj.
    destruct (entry_shape _ _ _ 0 j Hds ltac:(lia) Hj) as [x Hx].
    exists x. split; [done|].
    rewrite (entry_zip_with Rmult _ _ 0 j x (weight (lgm_alpha l) j k) Hx)
      by (apply short_weights_entry; (done || lia)).
    do 2 f_equal. unfold weight. destruct (decide _); lra. }
  exists (lgm_dist_cf l feat). rewrite (lgm_dist_Ok l feat n) by done.
  destruct l as [self|self];
    cbn [lgm_forward lgm_wf lgm_feat_dim lgm_num_classes lgm_centers
         lgm_slog_cov lgm_dist_cf lgm_alpha] in *;
    forward_prefix self feat Hwf Hf Hv Hlen;
    rewrite Hsub, bind_Ok.
  - rewrite index_select_squeezed_valid, decide_False, bind_Ok;
      [|cbn [length]; lia
       |rewrite sum_last2_length; by destruct Hwf as [_ [-> _]]].
    rewrite decide_False by lia.
    do 3 eexists. split; [done|]. split; [done|]. split; [|split].
    + intros j Hj. destruct (Hrow0 j Hj) as (x & Hx & Hmx).
      exists x. split; [done|].
      split; by apply (logit_of_dist_entry (Full self) n 0 j); (done || lia).
    + intros i Hi. unfold map2.
      destruct (shape_lookup _ _ _ i Hds ltac:(lia)) as (r & Hr & Hlr).
      rewrite !list_lookup_fmap, !lookup_zip_with, Hr.
      rewrite short_weights_row by (cbn [length]; lia). cbn.
      by rewrite zip_with_mult_one.
    + rewrite Hcd, big_sum_scale.
      pose proof (reg_big_sum (LGMLoss.log_covs self) [k] 1
                    (LGMLoss.num_classes self) (LGMLoss.feat_dim self)
                    (proj2 Hwf) eq_refl Hv) as Hreg.
      rewrite Hreg. cbn [big_sum]. unfold class_of. cbn.
      replace 1.0 with 1 by lra. f_equal. lra.
  - rewrite decide_False by lia.
    do 3 eexists. split; [done|]. split; [done|]. split; [|split].
    + intros j Hj. destruct (Hrow0 j Hj) as (x & Hx & Hmx).
      exists x. split; [done|].
      split; by apply (logit_of_dist_entry (Identity self) n 0 j); (done || lia).
    + intros i Hi. unfold map2.
      rewrite !list_lookup_fmap.
      by rewrite (unweighted_row n _ _ [k]) by (done || cbn; lia).
    + rewrite Hcd, big_sum_scale. replace 1.0 with 1 by lra. lra.
Qed.

Lemma forward_single_label_witness :
  let l := Full (LGMLoss.init 2 2 0.5 [[0; 0]; [10; 10]]) in
  ∃ dist logits margin_logits likelihood,
    lgm_dist l [[1; 0]; [9; 9]; [3; 4]] = Ok dist ∧
    lgm_forward l [[1; 0]; [9; 9]; [3; 4]] [1%Z]
      = Ok (logits, margin_logits, likelihood) ∧
    (∀ j, (j < lgm_num_classes l)%nat →
       ∃ x, entry dist 0 j = Some x ∧
            entry logits 0 j = Some (lgm_logit l j x) ∧
            entry margin_logits 0 j
              = Some (lgm_logit l j
                        (x * if decide (Z.of_nat j = 1%Z)
                             then 1 + lgm_alpha l else 1))) ∧
    (∀ i, (1 ≤ i < 3)%nat → margin_logits !! i = logits !! i) ∧
    likelihood =
      (1 / INR 3) *
      (big_sum 3 (λ i, 0.5 * sq_dist (lgm_feat_dim l) [[1; 0]; [9; 9]; [3; 4]]
                               (lgm_centers l) i (Z.to_nat 1))
       + 0.5 * lgm_slog_cov l (Z.to_nat 1)).
Proof.
  apply (forward_single_label
           (Full (LGMLoss.init 2 2 0.5 [[0; 0]; [10; 10]]))
           [[1; 0]; [9; 9]; [3; 4]] 1%Z 3).
  - split; (split; [reflexivity|repeat constructor]).
  - split; [reflexivity|repeat constructor].
  - simpl; lia.
  - lia.
Defined.

End short_labels.

(** ** A module with a single class *)
Section single_class.
Import Torch LGMUtils.

(** [LGMLoss.forward] with a single class serves batches of one sample
    only.  On any other batch with valid labels the distance tensor is
    computed and the margin stage goes through, but [torch.squeeze] at
    line 51 leaves a tensor with no dimension, [index_select] at line 52
    takes exactly one index from it, and the call raises.
    [LGMLoss_v0.forward] has no such selection and returns on the same
    batch when it is not empty. *)
Theorem LGMLoss_single_class_raises (self : LGMLoss.t) (self0 : LGMLoss_v0.t)
    (feat : mat) (label : list Z) (n : nat) :
  LGMLoss_wf self → LGMLoss_v0_wf self0 →
  LGMLoss.num_classes self = 1%nat →
  LGMLoss_v0.num_classes self0 = 1%nat →
  LGMLoss_v0.feat_dim self0 = LGMLoss.feat_dim self →
  shape feat n (LGMLoss.feat_dim self) →
  length label = n →
  valid_labels 1 label →
  n ≠ 1%nat →
  LGMLoss.forward self feat label = Err IndexToScalar ∧
  (∃ dist margin_dist,
     LGMLoss.dist self feat = Ok dist ∧
     LGMLoss.margin_dist self n dist label = Ok margin_dist) ∧
  (n ≠ 0%nat → ∃ r, LGMLoss_v0.forward self0 feat label = Ok r).
Proof.
  intros Hwf Hwf0 Hc Hc0 Hd Hf Hn Hv Hn1. split; [|split].
  - rewrite (LGMLoss_forward_valid self feat label n) by (done || by rewrite Hc).
    by rewrite decide_True.
  - exists (LGMLoss_dist_cf self feat),
      (margin_cf n (LGMLoss.num_classes self) (LGMLoss_dist_cf self feat)
         label (LGMLoss.alpha self)).
    split; [by apply (LGMLoss_dist_Ok self feat n)|].
    apply (lgm_margin_dist_Ok (Full self));
      [by apply LGMLoss_dist_cf_shape|done|]. cbn. by rewrite Hc.
  - intros Hn0.
    rewrite (LGMLoss_v0_forward_valid self0 feat label n)
      by (done || by rewrite ?Hd, ?Hc0).
    rewrite decide_False by done. by eexists.
Qed.

(** Two samples of a one-class module. *)
Lemma LGMLoss_single_class_raises_witness :
  let self := LGMLoss.init 1 2 0.5 [[0; 0]] in
  let self0 := LGMLoss_v0.mk 2 1 0.5 [[0; 0]] in
  LGMLoss.forward self [[1; 0]; [3; 4]] [0%Z; 0%Z] = Err IndexToScalar ∧
  (∃ dist margin_dist,
     LGMLoss.dist self [[1; 0]; [3; 4]] = Ok dist ∧
     LGMLoss.margin_dist self 2 dist [0%Z; 0%Z] = Ok margin_dist) ∧
  ∃ r, LGMLoss_v0.forward self0 [[1; 0]; [3; 4]] [0%Z; 0%Z] = Ok r.
Proof.
  destruct (LGMLoss_single_class_raises
              (LGMLoss.init 1 2 0.5 [[0; 0]]) (LGMLoss_v0.mk 2 1 0.5 [[0; 0]])
              [[1; 0]; [3; 4]] [0%Z; 0%Z] 2) as (He & Hs & Hr).
  - split; (split; [reflexivity|repeat constructor]).
  - split; [reflexivity|repeat constructor].
  - reflexivity.
  - reflexivity.
  - reflexivity.
  - split; [reflexivity|repeat constructor].
  - reflexivity.
  - repeat constructor; simpl; lia.
  - lia.
  - split; [exact He|]. split; [exact Hs|]. apply Hr. lia.
Defined.

(** [is_anomalous] on a model whose loss module is an [LGMLoss] with a
    single class raises likewise on every batch that is not of one
    sample: it calls [forward] for the logits. *)
Theorem is_anomalous_single_class_raises {X} (m : model X) (self : LGMLoss.t)
    (claimed_class : list Z) (x : X) (n : nat) :
  lgm m = Full self →
  LGMLoss_wf self →
  LGMLoss.num_classes self = 1%nat →
  shape (net m x) n (LGMLoss.feat_dim self) →
  length claimed_class = n →
  valid_labels 1 claimed_class →
  n ≠ 1%nat →
  is_anomalous m claimed_class x = Err IndexToScalar.
Proof.
  intros Hm Hwf Hc Hf Hn Hv Hn1. unfold is_anomalous. cbv zeta.
  rewrite Hm. cbn [lgm_forward].
  rewrite (LGMLoss_forward_valid self _ claimed_class n)
    by (done || by rewrite Hc).
  by rewrite decide_True.
Qed.

Lemma is_anomalous_single_class_raises_witness :
  is_anomalous (example_model (Full (LGMLoss.init 1 2 0 [[0; 0]])))
    [0%Z; 0%Z] [[0.1; 0.1]; [10; 10]] = Err IndexToScalar.
Proof.
  apply (is_anomalous_single_class_raises
           (example_model (Full (LGMLoss.init 1 2 0 [[0; 0]])))
           (LGMLoss.init 1 2 0 [[0; 0]]) [0%Z; 0%Z] [[0.1; 0.1]; [10; 10]] 2).
  - reflexivity.
  - split; (split; [reflexivity|repeat constructor]).
  - reflexivity.
  - split; [reflexivity|repeat constructor].
  - reflexivity.
  - repeat constructor; simpl; lia.
  - lia.
Defined.

End single_class.
